(** * SuperAGI controllers: analytics, tool_config, vector_db_index

    A shallow embedding of the three FastAPI controllers
    [superagi/controllers/analytics.py], [superagi/controllers/tool_config.py]
    and [superagi/controllers/vector_db_index.py], and the properties of the
    configuration reconciler and of the marketplace index aggregator.

    Handlers are computations in a state-and-exception monad over a
    SQLAlchemy-like session: the committed tables, the view of the current
    transaction (queries autoflush, so they see the session's own pending
    writes) and the list of statements the session has issued. *)

From stdpp Require Import base option list gmap strings.
From Stdlib Require Import ZArith.

Local Open Scope Z_scope.
Local Open Scope string_scope.
Local Open Scope list_scope.

(** ** Python exceptions *)

(** [detail] is the [detail=] argument of an [HTTPException]: a string
    literal, or [str(e)] of a caught exception (kept symbolic: its text is
    the exception class's business). *)
Inductive exn : Type :=
  | HTTPException (status_code : Z) (detail : detail)
  | AttributeError (msg : string)
  | NameError (name : string)
  | InvalidRequestError (msg : string)
  | OtherException (msg : string)
  | KeyboardInterrupt
with detail : Type :=
  | Literal (s : string)
  | str (e : exn).

(** [isinstance(e, Exception)]: everything but the [BaseException]-only
    classes, of which [KeyboardInterrupt] stands for all. *)
Definition isinstance_Exception (e : exn) : bool :=
  match e with
  | KeyboardInterrupt => false
  | _ => true
  end.

Inductive result (A : Type) : Type :=
  | Return (a : A)
  | Raise (e : exn).
Arguments Return {A} a.
Arguments Raise {A} e.

(** ** The data model *)

Module ToolKit.
Record t : Type := mk { id : Z; name : string; organisation_id : Z }.
End ToolKit.

(** Python's [None] or a [str]. *)
Abbreviation pystr := (option string).

Module ToolConfig.
Record t : Type :=
  mk { id : Z; tool_kit_id : Z; key : pystr; value : pystr }.
Definition with_value (v : pystr) (c : t) : t :=
  mk (id c) (tool_kit_id c) (key c) v.
End ToolConfig.

Module Organisation.
Record t : Type := mk { id : Z }.
End Organisation.

Global Instance ToolKit_eq_dec : EqDecision ToolKit.t.
Proof. solve_decision. Defined.
Global Instance ToolConfig_eq_dec : EqDecision ToolConfig.t.
Proof. solve_decision. Defined.

(** The tables of the store. Rows are kept in table order, which is the
    order [.first()] and [.all()] see; [tool_configs_id_seq] is the
    sequence the primary key of a new [ToolConfig] is drawn from. *)
Record Tables : Type := mkTables {
  tool_kits : list ToolKit.t;
  tool_configs : list ToolConfig.t;
  tool_configs_id_seq : Z
}.

Global Instance Tables_eq_dec : EqDecision Tables.
Proof. solve_decision. Defined.

(** ** The session *)

Inductive statement : Type :=
  | SELECT_tool_kits_name (name : string)
  | SELECT_tool_kits_organisation (organisation_id : Z)
  | SELECT_tool_configs (tool_kit_id : Z)
  | SELECT_tool_configs_key (tool_kit_id : Z) (key : pystr)
  | UPDATE_tool_configs (row : nat) (value : pystr)
  | INSERT_tool_configs (c : ToolConfig.t)
  | COMMIT
  | REFRESH_tool_kits (row : nat).

Record Session : Type := mkSession {
  database : Tables;
  pending : Tables;
  statements : list statement
}.

Definition M (A : Type) : Type := Session → result A * Session.

Global Instance M_ret : MRet M := λ A a s, (Return a, s).

Global Instance M_bind : MBind M := λ A B k m s,
  match m s with
  | (Return a, s') => k a s'
  | (Raise e, s') => (Raise e, s')
  end.

Definition raise {A} (e : exn) : M A := λ s, (Raise e, s).

(** [try: body / except: handler] (a bare except catches everything). *)
Definition try_except {A} (body : M A) (handler : exn → M A) : M A :=
  λ s, match body s with
       | (Return a, s') => (Return a, s')
       | (Raise e, s') => handler e s'
       end.

(** [try: body / except Exception as e: handler] *)
Definition try_except_Exception {A} (body : M A) (handler : exn → M A) : M A :=
  λ s, match body s with
       | (Return a, s') => (Return a, s')
       | (Raise e, s') =>
           if isinstance_Exception e then handler e s' else (Raise e, s')
       end.

(** [for x in l: body] *)
Fixpoint for_each {A} (l : list A) (body : A → M unit) : M unit :=
  match l with
  | [] => mret tt
  | x :: l' => body x ;; for_each l' body
  end.

(** Reading a name in a scope whose only exception-valued bindings are
    [locals]; unbound names raise [NameError]. *)
Definition load_name (locals : list (string * exn)) (x : string) : M exn :=
  match list_find (λ b, b.1 = x) locals with
  | Some (_, b) => mret b.2
  | None => raise (NameError x)
  end.

Definition log (st : statement) : M unit :=
  λ s, (Return tt, mkSession (database s) (pending s) (statements s ++ [st])).

Definition get_pending : M Tables := λ s, (Return (pending s), s).

Definition set_pending (t : Tables) : M unit :=
  λ s, (Return tt, mkSession (database s) t (statements s)).

(** [db.session.commit()] *)
Definition commit : M unit :=
  λ s, (Return tt, mkSession (pending s) (pending s) (statements s ++ [COMMIT])).

(** An ORM instance: the row it is mapped to and the row's contents. *)
Abbreviation instance A := (nat * A)%type.

(** [db.session.query(ToolKit).filter_by(name=name).first()] *)
Definition query_ToolKit_name_first (name : string)
  : M (option (instance ToolKit.t)) :=
  log (SELECT_tool_kits_name name);;
  t ← get_pending;
  mret (list_find (λ k, ToolKit.name k = name) (tool_kits t)).

(** [db.session.query(ToolKit).filter(ToolKit.organisation_id == org_id).all()] *)
Definition query_ToolKit_organisation_all (org_id : Z)
  : M (list (instance ToolKit.t)) :=
  log (SELECT_tool_kits_organisation org_id);;
  t ← get_pending;
  mret (filter (λ o, ToolKit.organisation_id o.2 = org_id)
              (imap (λ i k, (i, k)) (tool_kits t))).

Definition config_matches (tool_kit_id : Z) (key : pystr) (c : ToolConfig.t) : Prop :=
  ToolConfig.tool_kit_id c = tool_kit_id ∧ ToolConfig.key c = key.

Global Instance config_matches_dec tid k c : Decision (config_matches tid k c).
Proof. unfold config_matches. apply _. Defined.

(** [db.session.query(ToolConfig).filter(ToolConfig.tool_kit_id == tid,
    ToolConfig.key == key).first()] (and its [filter_by] spelling) *)
Definition query_ToolConfig_key_first (tid : Z) (key : pystr)
  : M (option (instance ToolConfig.t)) :=
  log (SELECT_tool_configs_key tid key);;
  t ← get_pending;
  mret (list_find (config_matches tid key) (tool_configs t)).

(** [db.session.query(ToolConfig).filter(ToolConfig.tool_kit_id == tid).all()] *)
Definition query_ToolConfig_all (tid : Z) : M (list ToolConfig.t) :=
  log (SELECT_tool_configs tid);;
  t ← get_pending;
  mret (filter (λ c, ToolConfig.tool_kit_id c = tid) (tool_configs t)).

(** [obj.value = value] on a loaded [ToolConfig] *)
Definition set_value (obj : instance ToolConfig.t) (value : pystr) : M unit :=
  log (UPDATE_tool_configs obj.1 value);;
  t ← get_pending;
  set_pending (mkTables (tool_kits t)
                 (<[obj.1 := ToolConfig.with_value value obj.2]> (tool_configs t))
                 (tool_configs_id_seq t)).

(** [db.session.add(ToolConfig(key=key, value=value, tool_kit_id=tid))] *)
Definition add_ToolConfig (key value : pystr) (tid : Z) : M unit :=
  t ← get_pending;
  let c := ToolConfig.mk (tool_configs_id_seq t) tid key value in
  log (INSERT_tool_configs c);;
  set_pending (mkTables (tool_kits t) (tool_configs t ++ [c])
                 (tool_configs_id_seq t + 1)).

(** [db.session.refresh(toolkit)] *)
Definition refresh (obj : instance ToolKit.t) : M ToolKit.t :=
  log (REFRESH_tool_kits obj.1);;
  t ← get_pending;
  match tool_kits t !! obj.1 with
  | Some k => mret k
  | None => raise (InvalidRequestError "Could not refresh instance")
  end.

(** One request against the store [db]: a fresh session runs the handler;
    when the request ends the session is closed, which discards whatever
    was not committed. *)
Definition request {A} (handler : M A) (db : Tables)
  : result A * Tables * list statement :=
  let '(r, s) := handler (mkSession db db []) in
  (r, database s, statements s).

Definition outcome {A} (x : result A * Tables * list statement) : result A := x.1.1.
Definition store {A} (x : result A * Tables * list statement) : Tables := x.1.2.
Definition issued {A} (x : result A * Tables * list statement) : list statement := x.2.

(** Unfolds the session monad down to matches on (result, session) pairs. *)
Ltac run :=
  unfold mbind, M_bind, mret, M_ret, raise, log, get_pending, set_pending,
    commit; simpl.

(** ** superagi/controllers/analytics.py *)

Section analytics.
(** The body a helper call evaluates to. *)
Context {R : Type}.

(** The methods of [AnalyticsHelper(session=db.session)], which live
    outside the controllers: any computation over the session. *)
Variable calculate_run_completed_metrics : M R.
Variable fetch_agent_data : M R.
Variable fetch_agent_runs : Z → M R.
Variable helper_get_active_runs : M R.
Variable calculate_tool_usage : M R.

Definition get_metrics : M R :=
  try_except calculate_run_completed_metrics
    (λ _, raise (HTTPException 500 (Literal "Internal Server Error"))).

Definition get_agents : M R :=
  try_except fetch_agent_data
    (λ _, raise (HTTPException 500 (Literal "Internal Server Error"))).

(** The [except:] clause binds no name, and the module has no global [e]. *)
Definition get_agent_runs (agent_id : Z) : M R :=
  try_except (fetch_agent_runs agent_id)
    (λ _, e ← load_name [] "e";
          raise (HTTPException 500 (str e))).

Definition get_active_runs : M R :=
  try_except_Exception helper_get_active_runs
    (λ exc, e ← load_name [("e", exc)] "e";
            raise (HTTPException 500 (str e))).

Definition get_tools_used : M R :=
  try_except_Exception calculate_tool_usage
    (λ exc, e ← load_name [("e", exc)] "e";
            raise (HTTPException 500 (str e))).
End analytics.

(** ** superagi/controllers/vector_db_index.py *)

Module Vectordb.
Record t : Type := mk { id : Z; organisation_id : Z; db_type : string }.
End Vectordb.

Module VectorIndexCollection.
Record t : Type := mk { id : Z; vector_db_id : Z; name : string }.
End VectorIndexCollection.

(** The values the summary dictionaries hold. *)
Inductive py_value : Type :=
  | PyInt (z : Z)
  | PyStr (s : string)
  | PyBool (b : bool).

Global Instance py_value_eq_dec : EqDecision py_value.
Proof. solve_decision. Defined.

(** The model and helper methods the handler calls, all outside the
    controller: [Vectordb.get_vector_db_organisation],
    [VectorIndexCollection.get_vector_index_organisation],
    [KnowledgeHelper(db.session).check_valid_dimension] and
    [VectorIndexConfig.get_index_state], read on the request's session. *)
Class VectorStore : Type := {
  get_vector_db_organisation : Organisation.t → list Vectordb.t;
  get_vector_index_organisation : Z → list VectorIndexCollection.t;
  check_valid_dimension : Z → Z → bool;
  get_index_state : Z → string
}.

Section vector_db_index.
Context {vstore : VectorStore}.

(** Lines 21-28: the dictionary built for one index ([data["id"]] is
    [index.id]). *)
Definition index_data (knowledge_id : Z) (index : VectorIndexCollection.t)
  : gmap string py_value :=
  let data : gmap string py_value :=
    <["name" := PyStr (VectorIndexCollection.name index)]>
      (<["id" := PyInt (VectorIndexCollection.id index)]> ∅) in
  let data :=
    <["is_valid_dimension" :=
        PyBool (check_valid_dimension (VectorIndexCollection.id index) knowledge_id)]>
      data in
  let state := get_index_state (VectorIndexCollection.id index) in
  if decide (state ≠ "CUSTOM")
  then <["is_valid_state" := PyBool true]> data
  else data.

(** The two accumulators [pinecone] and [qdrant]. *)
Record groups : Type := mkGroups {
  pinecone : list (gmap string py_value);
  qdrant : list (gmap string py_value)
}.

(** Lines 20-32: the inner loop's body. *)
Definition index_step (knowledge_id : Z) (vector : Vectordb.t)
    (g : groups) (index : VectorIndexCollection.t) : groups :=
  let data := index_data knowledge_id index in
  if decide (Vectordb.db_type vector = "PINECONE")
  then mkGroups (pinecone g ++ [data]) (qdrant g)
  else mkGroups (pinecone g) (qdrant g ++ [data]).

(** Lines 18-32: the outer loop's body. *)
Definition vector_step (knowledge_id : Z) (g : groups) (vector : Vectordb.t)
  : groups :=
  let indices := get_vector_index_organisation (Vectordb.id vector) in
  fold_left (index_step knowledge_id vector) indices g.

Definition valid_indices (knowledge_id : Z) (organisation : Organisation.t)
  : groups :=
  let vector_dbs := get_vector_db_organisation organisation in
  fold_left (vector_step knowledge_id) vector_dbs (mkGroups [] []).

Definition get_marketplace_valid_indices
    (knowledge_id : Z) (organisation : Organisation.t)
  : gmap string (list (gmap string py_value)) :=
  let g := valid_indices knowledge_id organisation in
  <["qdrant" := qdrant g]> (<["pinecone" := pinecone g]> ∅).

(** Every (vector db, index) pair the two loops visit, in order. *)
Definition enumerated (organisation : Organisation.t)
  : list (Vectordb.t * VectorIndexCollection.t) :=
  v ← get_vector_db_organisation organisation;
  (λ index, (v, index)) <$> get_vector_index_organisation (Vectordb.id v).

Definition is_pinecone (p : Vectordb.t * VectorIndexCollection.t) : Prop :=
  Vectordb.db_type p.1 = "PINECONE".

(** The summaries of the enumerated pairs that satisfy [P], in order. *)
Definition summaries (knowledge_id : Z)
    (P : Vectordb.t * VectorIndexCollection.t → Prop)
    `{!∀ p, Decision (P p)}
    (ps : list (Vectordb.t * VectorIndexCollection.t))
  : list (gmap string py_value) :=
  (λ p, index_data knowledge_id p.2) <$> filter P ps.
End vector_db_index.

(** ** superagi/controllers/tool_config.py *)

(** An element of the JSON list in the body of [POST /add/...]: a
    dictionary (of strings and nulls, as the docstring has it), or any
    other JSON value, which has no [.get]. *)
Inductive json : Type :=
  | JDict (d : gmap string pystr)
  | JOther.

(** [config.get(k)] *)
Definition dict_get (config : json) (k : string) : M pystr :=
  match config with
  | JDict d => mret (mjoin (d !! k))
  | JOther => raise (AttributeError "object has no attribute 'get'")
  end.

(** An element of [tool_configs]: an object and its attributes. *)
Record py_object : Type := PyObject { attributes : gmap string pystr }.

(** [obj.a] *)
Definition getattr (obj : py_object) (a : string) : M pystr :=
  match attributes obj !! a with
  | Some v => mret v
  | None => raise (AttributeError ("object has no attribute '" +:+ a +:+ "'"))
  end.

(** Modelled from the spec: [ToolKit.get_tool_kit_from_name] is a method of
    the model class in superagi/models/tool_kit.py, which is not among the
    sources. The spec has it "Resolve ToolKit by name; fails with NotFound
    if absent", and the handler tests its result against [None]: it is the
    lookup of the first toolkit of that name. *)
Definition get_tool_kit_from_name (tool_kit_name : string)
  : M (option (instance ToolKit.t)) :=
  query_ToolKit_name_first tool_kit_name.

Definition updated_message : gmap string string :=
  {[ "message" := "Tool configs updated successfully" ]}.

(** Lines 42-50: the loop body of [update_tool_config]. *)
Definition update_tool_config_step (tool_kit : instance ToolKit.t) (config : json)
  : M unit :=
  key ← dict_get config "key";
  value ← dict_get config "value";
  if decide (key ≠ None) then
    tool_config ← query_ToolConfig_key_first (ToolKit.id tool_kit.2) key;
    match tool_config with
    | Some obj => set_value obj value;; commit
    | None => mret tt
    end
  else mret tt.

Definition update_tool_config (tool_kit_name : string) (configs : list json)
  : M (gmap string string) :=
  try_except_Exception
    (tool_kit ← get_tool_kit_from_name tool_kit_name;
     match tool_kit with
     | None => raise (HTTPException 404 (Literal "Tool kit not found"))
     | Some tool_kit =>
         for_each configs (update_tool_config_step tool_kit);;
         mret updated_message
     end)
    (λ exc, e ← load_name [("e", exc)] "e";
            raise (HTTPException 500 (str e))).

(** Lines 81-96: the loop body of [create_or_update_tool_config]. *)
Definition create_or_update_step (toolkit : instance ToolKit.t)
    (tool_config_data : py_object) : M unit :=
  key ← getattr tool_config_data "key";
  value ← getattr tool_config_data "value";
  existing_tool_config ← query_ToolConfig_key_first (ToolKit.id toolkit.2) key;
  match existing_tool_config with
  | Some obj => set_value obj value
  | None => add_ToolConfig key value (ToolKit.id toolkit.2)
  end.

Definition create_or_update_tool_config
    (tool_kit_name : string) (tool_configs : list py_object) : M ToolKit.t :=
  toolkit ← query_ToolKit_name_first tool_kit_name;
  match toolkit with
  | None => raise (HTTPException 404 (Literal "ToolKit not found"))
  | Some toolkit =>
      for_each tool_configs (create_or_update_step toolkit);;
      commit;;
      refresh toolkit
  end.

Definition get_all_tool_configs
    (tool_kit_name : string) (organisation : Organisation.t)
  : M (list ToolConfig.t) :=
  user_tool_kits ← query_ToolKit_organisation_all (Organisation.id organisation);
  toolkit ← query_ToolKit_name_first tool_kit_name;
  match toolkit with
  | None => raise (HTTPException 404 (Literal "ToolKit not found"))
  | Some toolkit =>
      if decide (ToolKit.name toolkit.2 ∉ (λ o, ToolKit.name o.2) <$> user_tool_kits)
      then raise (HTTPException 403 (Literal "Unauthorized"))
      else query_ToolConfig_all (ToolKit.id toolkit.2)
  end.

(** What the local [toolkit] of [get_tool_config] can hold: a loaded
    [ToolKit], or a [Query] that was built and not run. *)
Inductive toolkit_value : Type :=
  | Loaded (obj : instance ToolKit.t)
  | Query_filter_by_name (name : string).

(** [x == y] for [y] a loaded [ToolKit]: neither class defines [__eq__],
    so it is object identity, and the session maps one row to one object. *)
Definition py_eq (x : toolkit_value) (y : instance ToolKit.t) : bool :=
  match x with
  | Loaded obj => bool_decide (obj.1 = y.1)
  | Query_filter_by_name _ => false
  end.

(** [x in l] *)
Definition py_in (x : toolkit_value) (l : list (instance ToolKit.t)) : bool :=
  existsb (py_eq x) l.

(** [x.id] *)
Definition getattr_id (x : toolkit_value) : M Z :=
  match x with
  | Loaded obj => mret (ToolKit.id obj.2)
  | Query_filter_by_name _ =>
      raise (AttributeError "'Query' object has no attribute 'id'")
  end.

(** Line 151 builds the query and never runs it (no [.first()]). *)
Definition get_tool_config
    (toolkit : string) (key : string) (organisation : Organisation.t)
  : M ToolConfig.t :=
  user_tool_kits ← query_ToolKit_organisation_all (Organisation.id organisation);
  let toolkit := Query_filter_by_name toolkit in
  if negb (py_in toolkit user_tool_kits)
  then raise (HTTPException 403 (Literal "Unauthorized"))
  else
    tool_kit_id ← getattr_id toolkit;
    tool_config ← query_ToolConfig_key_first tool_kit_id (Some key);
    match tool_config with
    | None => raise (HTTPException 404 (Literal "Tool configuration not found"))
    | Some obj => mret obj.2
    end.

(** ** Vocabulary of the statements about the reconciler *)

(** A well-formed element of [tool_configs]: an object with the two
    attributes the loop reads. *)
Definition tool_config_data (e : pystr * pystr) : py_object :=
  PyObject (<["value" := e.2]> (<["key" := e.1]> ∅)).

(** The (key, value) pair the loop reads off an object, if it has both
    attributes. *)
Definition entry_of (obj : py_object) : option (pystr * pystr) :=
  k ← attributes obj !! "key";
  v ← attributes obj !! "value";
  Some (k, v).

(** The value of the last occurrence of [k] in the input list. *)
Definition last_value (K : list (pystr * pystr)) (k : pystr) : option pystr :=
  (λ r, r.2.2) <$> list_find (λ e, e.1 = k) (reverse K).

(** What a lookup of [(tid, k)] reads: the value of the first matching row. *)
Definition first_value (tid : Z) (k : pystr) (rows : list ToolConfig.t)
  : option pystr :=
  (λ r, ToolConfig.value r.2) <$> list_find (config_matches tid k) rows.

(** The rows of toolkit [tid] under key [k]. *)
Definition configs_for (tid : Z) (k : pystr) (rows : list ToolConfig.t)
  : list ToolConfig.t :=
  filter (config_matches tid k) rows.

(** The [(tool_kit_id, key)] pair of each row, in table order. *)
Definition config_pairs (rows : list ToolConfig.t) : list (Z * pystr) :=
  (λ c, (ToolConfig.tool_kit_id c, ToolConfig.key c)) <$> rows.

(** The invariant of the data model: at most one [ToolConfig] per
    [(tool_kit_id, key)] pair. *)
Definition unique_configs (t : Tables) : Prop :=
  NoDup (config_pairs (tool_configs t)).

(** A row without its value: what identifies it. *)
Definition row_identity (c : ToolConfig.t) : Z * Z * pystr :=
  (ToolConfig.id c, ToolConfig.tool_kit_id c, ToolConfig.key c).

(** Two states of the tables that differ at most in the values of their
    configs. *)
Definition same_rows (a b : Tables) : Prop :=
  tool_kits a = tool_kits b ∧
  row_identity <$> tool_configs a = row_identity <$> tool_configs b ∧
  tool_configs_id_seq a = tool_configs_id_seq b.

(** Lines 85-96 as a function on rows: overwrite the first row of
    [(tid, k)], or append a new row with primary key [n]. *)
Definition write (tid : Z) (k v : pystr) (n : Z) (rows : list ToolConfig.t)
  : list ToolConfig.t :=
  match list_find (config_matches tid k) rows with
  | Some (i, c) => <[i := ToolConfig.with_value v c]> rows
  | None => rows ++ [ToolConfig.mk n tid k v]
  end.

(** One iteration of the loop of [create_or_update_tool_config], on the
    tables of the transaction. *)
Definition upsert (tid : Z) (t : Tables) (e : pystr * pystr) : Tables :=
  mkTables (tool_kits t)
    (write tid e.1 e.2 (tool_configs_id_seq t) (tool_configs t))
    (match list_find (config_matches tid e.1) (tool_configs t) with
     | Some _ => tool_configs_id_seq t
     | None => tool_configs_id_seq t + 1
     end).

(** The whole loop. *)
Definition reconcile (tid : Z) (K : list (pystr * pystr)) (t : Tables) : Tables :=
  fold_left (upsert tid) K t.

(** A dictionary entry that [update_tool_config] passes over: ["key"] is
    missing or [None]. *)
Definition keyless (config : json) : Prop :=
  match config with
  | JDict d => mjoin (d !! "key") = None
  | JOther => False
  end.

Global Instance keyless_dec config : Decision (keyless config).
Proof. destruct config; simpl; apply _. Defined.

Definition is_dict (config : json) : Prop :=
  match config with
  | JDict _ => True
  | JOther => False
  end.

(** The statements that read or write the [tool_configs] table. *)
Definition touches_tool_configs (st : statement) : Prop :=
  match st with
  | SELECT_tool_configs _ | SELECT_tool_configs_key _ _
  | UPDATE_tool_configs _ _ | INSERT_tool_configs _ => True
  | _ => False
  end.

(** ** A store and inputs to try the statements on *)

Definition web_search : ToolKit.t := ToolKit.mk 1 "web-search" 10.

(** One toolkit, owned by organisation 10, with one config. *)
Definition example_store : Tables :=
  mkTables [web_search] [ToolConfig.mk 1 1 (Some "region") (Some "eu")] 2.

(** The scenario of the spec: the same key twice. *)
Definition example_entries : list (pystr * pystr) :=
  [(Some "api_key", Some "A"); (Some "api_key", Some "B")].

(** A body for [POST /add/...]: an entry without ["key"], one whose key is
    null, and one that matches the existing config. *)
Definition example_configs : list json :=
  [JDict (<["value" := Some "x"]> ∅);
   JDict (<["key" := None]> (<["value" := Some "y"]> ∅));
   JDict (<["key" := Some "region"]> (<["value" := Some "us"]> ∅))].

(** An organisation with one PINECONE database holding one index. *)
Definition example_vector_dbs (_ : Organisation.t) : list Vectordb.t :=
  [Vectordb.mk 1 10 "PINECONE"].
Definition example_indices (_ : Z) : list VectorIndexCollection.t :=
  [VectorIndexCollection.mk 7 1 "docs"].
Definition example_state (_ : Z) : string := "ACTIVE".
Definition example_dimension (_ _ : Z) : bool := true.
Definition example_vector_store : VectorStore :=
  Build_VectorStore example_vector_dbs example_indices example_dimension
    example_state.

(** A helper call that fails. *)
Definition failing_helper (_ : Z) : M unit := raise (OtherException "boom").

(** ** Vocabulary of the further properties *)

(** The (key, value) pair [update_tool_config] reads off a dictionary with
    [.get]: a missing entry reads as [None]. *)
Definition dict_entry (d : gmap string pystr) : pystr * pystr :=
  (mjoin (d !! "key"), mjoin (d !! "value")).

(** The entries of the dictionaries that stand before the first element
    that is not one: the part of the body the loop of [update_tool_config]
    gets through. *)
Fixpoint leading_entries (configs : list json) : list (pystr * pystr) :=
  match configs with
  | JDict d :: configs' => dict_entry d :: leading_entries configs'
  | _ => []
  end.

Global Instance is_dict_dec config : Decision (is_dict config).
Proof. destruct config; simpl; apply _. Defined.

(** An entry [update_tool_config] acts on: its key is not [None] and the
    toolkit has a row for it. *)
Definition updatable (tid : Z) (t : Tables) (e : pystr * pystr) : Prop :=
  e.1 ≠ None ∧ is_Some (first_value tid e.1 (tool_configs t)).

Global Instance updatable_dec tid t e : Decision (updatable tid t e).
Proof. unfold updatable. apply _. Defined.

(** The dictionary [{"key": k, "value": v}]. *)
Definition config_dict (e : pystr * pystr) : json :=
  JDict (<["value" := e.2]> (<["key" := e.1]> ∅)).

(** What the [except] clause of [update_tool_config] makes of the
    [AttributeError] of an element without [.get]. *)
Definition not_a_dict_error : exn :=
  HTTPException 500 (str (AttributeError "object has no attribute 'get'")).

(** The organisation owns some toolkit of that name. *)
Definition owns_named (org_id : Z) (name : string) (t : Tables) : Prop :=
  Exists (λ k, ToolKit.organisation_id k = org_id ∧ ToolKit.name k = name)
    (tool_kits t).

Global Instance owns_named_dec org_id name t : Decision (owns_named org_id name t).
Proof. unfold owns_named. apply _. Defined.

(** The rows of toolkit [tid], in table order. *)
Definition configs_of (tid : Z) (rows : list ToolConfig.t) : list ToolConfig.t :=
  filter (λ c, ToolConfig.tool_kit_id c = tid) rows.

(** The keys a summary dictionary may have. *)
Definition summary_keys : gset string :=
  {[ "id"; "name"; "is_valid_dimension"; "is_valid_state" ]}.

(** Two toolkits of one name: the first belongs to organisation 11 and has
    a config, the second belongs to organisation 10. *)
Definition shared_name_store : Tables :=
  mkTables [ToolKit.mk 1 "web-search" 11; ToolKit.mk 2 "web-search" 10]
    [ToolConfig.mk 1 1 (Some "api_key") (Some "s3cret")] 2.

(** A body whose second element is not a dictionary. *)
Definition broken_configs : list json :=
  [config_dict (Some "region", Some "us"); JOther;
   config_dict (Some "region", Some "ap")].


(** * Properties *)

(** ** The marketplace index aggregator *)

Section vector_db_index_facts.
Context {vstore : VectorStore}.

Lemma inner_loop knowledge_id vector indices g :
  fold_left (index_step knowledge_id vector) indices g =
  mkGroups
    (pinecone g ++ summaries knowledge_id is_pinecone
                     ((λ index, (vector, index)) <$> indices))
    (qdrant g ++ summaries knowledge_id (λ p, ¬ is_pinecone p)
                   ((λ index, (vector, index)) <$> indices)).
Proof.
  revert g. induction indices as [|index indices IH]; intros g; simpl.
  - unfold summaries. simpl. rewrite !app_nil_r. destruct g; reflexivity.
  - rewrite IH. unfold summaries, index_step, is_pinecone.
    rewrite !filter_cons; simpl.
    repeat case_decide; try tauto; simpl; by rewrite <- !app_assoc.
Qed.

Lemma outer_loop knowledge_id vector_dbs g :
  fold_left (vector_step knowledge_id) vector_dbs g =
  mkGroups
    (pinecone g ++ summaries knowledge_id is_pinecone
       (v ← vector_dbs;
        (λ index, (v, index)) <$> get_vector_index_organisation (Vectordb.id v)))
    (qdrant g ++ summaries knowledge_id (λ p, ¬ is_pinecone p)
       (v ← vector_dbs;
        (λ index, (v, index)) <$> get_vector_index_organisation (Vectordb.id v))).
Proof.
  revert g. induction vector_dbs as [|v vs IH]; intros g; simpl.
  - unfold summaries. simpl. rewrite !app_nil_r. destruct g; reflexivity.
  - rewrite IH. unfold vector_step. rewrite inner_loop. simpl.
    unfold summaries. by rewrite !filter_app, !fmap_app, !app_assoc.
Qed.

Lemma valid_indices_groups knowledge_id organisation :
  valid_indices knowledge_id organisation =
  mkGroups (summaries knowledge_id is_pinecone (enumerated organisation))
           (summaries knowledge_id (λ p, ¬ is_pinecone p) (enumerated organisation)).
Proof. unfold valid_indices. by rewrite outer_loop. Qed.

Lemma index_data_is_valid_state knowledge_id index :
  index_data knowledge_id index !! "is_valid_state" =
  if decide (get_index_state (VectorIndexCollection.id index) = "CUSTOM")
  then None else Some (PyBool true).
Proof.
  unfold index_data.
  destruct (decide (get_index_state (VectorIndexCollection.id index) = "CUSTOM"))
    as [->|Hne].
  - rewrite decide_False by (intros H; by apply H).
    by rewrite !lookup_insert_ne, lookup_empty.
  - rewrite decide_True by done. by rewrite lookup_insert_eq.
Qed.
End vector_db_index_facts.

(** ** Rows of [tool_configs] under [write] *)

Section rows.
Implicit Types (l : list ToolConfig.t) (c : ToolConfig.t).
Implicit Types (k v : pystr) (tid n : Z).

Lemma write_cons tid k v n c l :
  write tid k v n (c :: l) =
  if decide (config_matches tid k c)
  then ToolConfig.with_value v c :: l
  else c :: write tid k v n l.
Proof.
  unfold write. simpl. case_decide; [done|].
  by destruct (list_find _ l) as [[i c']|].
Qed.

Lemma first_value_cons tid k c l :
  first_value tid k (c :: l) =
  if decide (config_matches tid k c)
  then Some (ToolConfig.value c)
  else first_value tid k l.
Proof.
  unfold first_value. simpl. case_decide; [done|].
  by destruct (list_find _ l) as [[i c']|].
Qed.

Lemma first_value_None tid k l :
  first_value tid k l = None ↔ list_find (config_matches tid k) l = None.
Proof. unfold first_value. by destruct (list_find _ l). Qed.

Lemma matches_with_value tid k v c :
  config_matches tid k (ToolConfig.with_value v c) ↔ config_matches tid k c.
Proof. done. Qed.

Lemma first_value_write tid k v n l :
  first_value tid k (write tid k v n l) = Some v.
Proof.
  induction l as [|c l IH].
  - unfold write, first_value. simpl. by rewrite decide_True.
  - rewrite write_cons. case_decide as Hc.
    + rewrite first_value_cons, decide_True; [done|].
      by apply matches_with_value.
    + by rewrite first_value_cons, decide_False.
Qed.

Lemma first_value_write_ne tid tid' k k' v n l :
  (tid', k') ≠ (tid, k) →
  first_value tid' k' (write tid k v n l) = first_value tid' k' l.
Proof.
  intros Hne. induction l as [|c l IH].
  - unfold write, first_value. simpl. rewrite decide_False; [done|].
    intros [? ?]; simpl in *; congruence.
  - rewrite write_cons. case_decide as Hc.
    + rewrite !first_value_cons.
      assert (¬ config_matches tid' k' c) as Hc'.
      { destruct Hc as [? ?]. intros [? ?]. congruence. }
      rewrite !decide_False; [done|done|].
      by rewrite matches_with_value.
    + rewrite !first_value_cons. by rewrite IH.
Qed.

Lemma write_absorb tid k v1 v2 n n' l :
  write tid k v2 n' (write tid k v1 n l) = write tid k v2 n l.
Proof.
  induction l as [|c l IH].
  - unfold write. simpl. by rewrite decide_True.
  - rewrite !write_cons. case_decide as Hc.
    + rewrite write_cons, decide_True; [done|].
      by apply matches_with_value.
    + by rewrite write_cons, decide_False, IH.
Qed.

Lemma write_found tid k v n n' l :
  is_Some (first_value tid k l) →
  write tid k v n l = write tid k v n' l.
Proof.
  unfold write, first_value.
  destruct (list_find _ l) as [[i c]|]; [done|]. by intros [? ?].
Qed.

Lemma write_commute tid k k' v v' n1 n2 n3 l :
  k ≠ k' →
  is_Some (first_value tid k l) →
  write tid k v n1 (write tid k' v' n2 l) =
  write tid k' v' n2 (write tid k v n3 l).
Proof.
  intros Hne. induction l as [|c l IH]; intros Hin.
  - by destruct Hin.
  - rewrite first_value_cons in Hin.
    rewrite (write_cons tid k'), (write_cons tid k _ n3).
    destruct (decide (config_matches tid k c)) as [Hc|Hc];
      destruct (decide (config_matches tid k' c)) as [Hc'|Hc'].
    + destruct Hc as [? ?], Hc' as [? ?]. congruence.
    + rewrite !write_cons.
      rewrite (decide_True (P:=config_matches tid k c)) by done.
      rewrite (decide_False (P:=config_matches tid k' (ToolConfig.with_value v c)));
        [done|].
      exact Hc'.
    + rewrite !write_cons.
      rewrite (decide_True (P:=config_matches tid k' c)) by done.
      rewrite (decide_False (P:=config_matches tid k (ToolConfig.with_value v' c)));
        [|exact Hc].
      f_equal. by apply write_found.
    + rewrite !write_cons.
      rewrite (decide_False (P:=config_matches tid k c)) by done.
      rewrite (decide_False (P:=config_matches tid k' c)) by done.
      by rewrite IH.
Qed.

Lemma config_pairs_write tid k v n l :
  config_pairs (write tid k v n l) =
  match first_value tid k l with
  | Some _ => config_pairs l
  | None => config_pairs l ++ [(tid, k)]
  end.
Proof.
  induction l as [|c l IH]; [done|].
  rewrite write_cons, first_value_cons. case_decide as Hc; [done|].
  unfold config_pairs in *. rewrite !fmap_cons, IH.
  by destruct (first_value tid k l).
Qed.

Lemma first_value_None_pairs tid k l :
  first_value tid k l = None ↔ (tid, k) ∉ config_pairs l.
Proof.
  induction l as [|c l IH].
  - split; [intros _; apply not_elem_of_nil | done].
  - rewrite first_value_cons. unfold config_pairs in *.
    rewrite fmap_cons, not_elem_of_cons. case_decide as Hc.
    + split; [done|]. intros [Hne _]. destruct Hc as [? ?]. congruence.
    + rewrite IH. split; [|tauto]. intros Hl. split; [|done].
      intros [=]. apply Hc. by split.
Qed.

Lemma unique_write tid k v n l :
  NoDup (config_pairs l) → NoDup (config_pairs (write tid k v n l)).
Proof.
  intros Hl. rewrite config_pairs_write.
  destruct (first_value tid k l) eqn:Hf; [done|].
  apply NoDup_app. split_and!; [done| |apply NoDup_singleton].
  intros p Hp ->%list_elem_of_singleton.
  by apply first_value_None_pairs in Hf.
Qed.

Lemma elem_of_write_ne tid k v n c l :
  ¬ config_matches tid k c →
  c ∈ write tid k v n l ↔ c ∈ l.
Proof.
  intros Hc. induction l as [|c' l IH].
  - unfold write. simpl. rewrite list_elem_of_singleton.
    split; [|by intros ?%not_elem_of_nil].
    intros ->. destruct Hc. by split.
  - rewrite write_cons. case_decide as Hc'.
    + rewrite !elem_of_cons. split; (intros [->|?]; [|by right]).
      * by apply matches_with_value in Hc'.
      * done.
    + rewrite !elem_of_cons. by rewrite IH.
Qed.

Lemma configs_for_None tid k l :
  first_value tid k l = None → configs_for tid k l = [].
Proof.
  induction l as [|c l IH]; [done|].
  rewrite first_value_cons. unfold configs_for in *. rewrite filter_cons.
  case_decide; [done|]. apply IH.
Qed.

Lemma unique_configs_for tid k v l :
  NoDup (config_pairs l) →
  first_value tid k l = Some v →
  ∃ c, configs_for tid k l = [c] ∧ ToolConfig.value c = v.
Proof.
  induction l as [|c l IH]; [done|].
  unfold config_pairs. rewrite fmap_cons, NoDup_cons. intros [Hc Hl].
  rewrite first_value_cons. unfold configs_for. rewrite filter_cons.
  case_decide as Hm.
  - intros [= <-]. exists c. split; [|done]. f_equal.
    destruct Hm as [<- <-].
    by apply configs_for_None, first_value_None_pairs.
  - intros Hf. by apply IH.
Qed.

Lemma row_identity_write_found tid k v i c l :
  list_find (config_matches tid k) l = Some (i, c) →
  row_identity <$> <[i := ToolConfig.with_value v c]> l = row_identity <$> l.
Proof.
  intros (Hi & _ & _)%list_find_Some.
  rewrite list_fmap_insert. apply list_insert_id.
  by rewrite list_lookup_fmap, Hi.
Qed.
End rows.

(** ** The tables under [upsert] and [reconcile] *)

Section tables.
Implicit Types (t : Tables) (K : list (pystr * pystr)) (e : pystr * pystr).
Implicit Types (k v : pystr) (tid : Z) (c : ToolConfig.t).

Local Abbreviation present tid k t :=
  (is_Some (first_value tid k (tool_configs t))).

Lemma upsert_found tid t e :
  present tid e.1 t →
  upsert tid t e =
  mkTables (tool_kits t)
    (write tid e.1 e.2 (tool_configs_id_seq t) (tool_configs t))
    (tool_configs_id_seq t).
Proof.
  unfold upsert, first_value.
  destruct (list_find _ (tool_configs t)); [done|]. by intros [? ?].
Qed.

Lemma upsert_missing tid t e :
  first_value tid e.1 (tool_configs t) = None →
  upsert tid t e =
  mkTables (tool_kits t)
    (write tid e.1 e.2 (tool_configs_id_seq t) (tool_configs t))
    (tool_configs_id_seq t + 1).
Proof. unfold upsert. by intros ->%first_value_None. Qed.

Lemma tool_configs_upsert tid t e :
  tool_configs (upsert tid t e) =
  write tid e.1 e.2 (tool_configs_id_seq t) (tool_configs t).
Proof. done. Qed.

Lemma tool_kits_reconcile tid K t :
  tool_kits (reconcile tid K t) = tool_kits t.
Proof.
  revert t. induction K as [|e K IH]; intros t; [done|].
  unfold reconcile in *. simpl. by rewrite IH.
Qed.

Lemma reconcile_snoc tid K e t :
  reconcile tid (K ++ [e]) t = upsert tid (reconcile tid K t) e.
Proof. unfold reconcile. by rewrite fold_left_app. Qed.

Lemma present_upsert tid k t e :
  present tid k t → present tid k (upsert tid t e).
Proof.
  intros Hk. rewrite tool_configs_upsert.
  destruct (decide (k = e.1)) as [->|Hne].
  - rewrite first_value_write. by eexists.
  - rewrite first_value_write_ne; [done|congruence].
Qed.

Lemma present_reconcile tid k K t :
  present tid k t → present tid k (reconcile tid K t).
Proof.
  revert t. induction K as [|e K IH]; intros t Hk; [done|].
  apply IH. by apply present_upsert.
Qed.

Lemma upsert_absorb tid t k v1 v2 :
  upsert tid (upsert tid t (k, v1)) (k, v2) = upsert tid t (k, v2).
Proof.
  destruct (first_value tid k (tool_configs t)) as [v|] eqn:Hf.
  - rewrite (upsert_found tid t (k, v1)), (upsert_found tid t (k, v2))
      by (simpl; rewrite Hf; by eexists).
    rewrite upsert_found.
    2:{ simpl. rewrite first_value_write. by eexists. }
    simpl. by rewrite write_absorb.
  - rewrite (upsert_missing tid t (k, v1)), (upsert_missing tid t (k, v2))
      by done.
    rewrite upsert_found.
    2:{ simpl. rewrite first_value_write. by eexists. }
    simpl. by rewrite write_absorb.
Qed.

Lemma upsert_commute tid t k k' v v' :
  k ≠ k' →
  present tid k t →
  upsert tid (upsert tid t (k, v)) (k', v') =
  upsert tid (upsert tid t (k', v')) (k, v).
Proof.
  intros Hne Hk.
  rewrite (upsert_found tid t (k, v)) by done.
  destruct (first_value tid k' (tool_configs t)) as [w|] eqn:Hf.
  - rewrite (upsert_found tid t (k', v')) by (simpl; rewrite Hf; by eexists).
    rewrite (upsert_found tid _ (k', v')).
    2:{ simpl. rewrite first_value_write_ne by congruence.
        rewrite Hf. by eexists. }
    rewrite (upsert_found tid _ (k, v)).
    2:{ simpl. by rewrite first_value_write_ne by congruence. }
    simpl. f_equal. symmetry. by apply write_commute.
  - rewrite (upsert_missing tid t (k', v')) by done.
    rewrite (upsert_missing tid _ (k', v')).
    2:{ simpl. by rewrite first_value_write_ne by congruence. }
    rewrite (upsert_found tid _ (k, v)).
    2:{ simpl. by rewrite first_value_write_ne by congruence. }
    simpl. f_equal. symmetry. by apply write_commute.
Qed.

(** A write to a key that a later entry overwrites is lost. *)
Lemma reconcile_overwrites tid K t k v :
  k ∈ K.*1 →
  present tid k t →
  reconcile tid K (upsert tid t (k, v)) = reconcile tid K t.
Proof.
  revert t. induction K as [|[k' v'] K IH]; intros t Hin Hk.
  - by apply elem_of_nil in Hin.
  - unfold reconcile in *. simpl.
    destruct (decide (k = k')) as [<-|Hne].
    + by rewrite upsert_absorb.
    + rewrite upsert_commute by done. apply IH.
      * rewrite fmap_cons, elem_of_cons in Hin. by destruct Hin.
      * by apply present_upsert.
Qed.

(** A write to a key that no later entry mentions can be done last. *)
Lemma reconcile_commute tid K t k v :
  k ∉ K.*1 →
  present tid k t →
  reconcile tid K (upsert tid t (k, v)) = upsert tid (reconcile tid K t) (k, v).
Proof.
  revert t. induction K as [|[k' v'] K IH]; intros t Hin Hk; [done|].
  rewrite fmap_cons, not_elem_of_cons in Hin. destruct Hin as [Hne Hin].
  unfold reconcile in *. simpl. simpl in Hne.
  rewrite upsert_commute by done. apply IH; [done|].
  by apply present_upsert.
Qed.

Lemma reconcile_idempotent tid K t :
  reconcile tid K (reconcile tid K t) = reconcile tid K t.
Proof.
  revert t. induction K as [|[k v] K IH]; intros t; [done|].
  change (reconcile tid ((k, v) :: K) t)
    with (reconcile tid K (upsert tid t (k, v))).
  set (x := upsert tid t (k, v)).
  assert (present tid k x) as Hx.
  { unfold x. rewrite tool_configs_upsert, first_value_write. by eexists. }
  change (reconcile tid ((k, v) :: K) (reconcile tid K x))
    with (reconcile tid K (upsert tid (reconcile tid K x) (k, v))).
  destruct (decide (k ∈ K.*1)) as [Hin|Hin].
  - rewrite reconcile_overwrites; [apply IH|done|].
    by apply present_reconcile.
  - rewrite <- reconcile_commute by done.
    unfold x. rewrite upsert_absorb. apply IH.
Qed.

Lemma last_value_snoc K e k :
  last_value (K ++ [e]) k =
  if decide (e.1 = k) then Some e.2 else last_value K k.
Proof.
  unfold last_value. rewrite reverse_snoc. simpl. case_decide; [done|].
  by destruct (list_find _ (reverse K)) as [[i r]|].
Qed.

Lemma last_value_is_Some K k : is_Some (last_value K k) ↔ k ∈ K.*1.
Proof.
  induction K as [|e K IH] using rev_ind.
  - split; [by intros [? ?] | by intros ?%elem_of_nil].
  - rewrite last_value_snoc, fmap_app, elem_of_app. simpl.
    rewrite list_elem_of_singleton. case_decide as He.
    + split; [by right | by eexists].
    + rewrite IH. split; [by left|]. by intros [?|?].
Qed.

Lemma first_value_reconcile tid K t k :
  first_value tid k (tool_configs (reconcile tid K t)) =
  match last_value K k with
  | Some v => Some v
  | None => first_value tid k (tool_configs t)
  end.
Proof.
  induction K as [|e K IH] using rev_ind; [done|].
  rewrite reconcile_snoc, last_value_snoc, tool_configs_upsert.
  case_decide as He.
  - subst k. by rewrite first_value_write.
  - rewrite first_value_write_ne; [done|congruence].
Qed.

Lemma first_value_reconcile_other tid tid' K t k :
  tid' ≠ tid →
  first_value tid' k (tool_configs (reconcile tid K t)) =
  first_value tid' k (tool_configs t).
Proof.
  intros Hne. induction K as [|e K IH] using rev_ind; [done|].
  rewrite reconcile_snoc, tool_configs_upsert.
  rewrite first_value_write_ne; [done|congruence].
Qed.

Lemma unique_reconcile tid K t :
  unique_configs t → unique_configs (reconcile tid K t).
Proof.
  intros Ht. induction K as [|e K IH] using rev_ind; [done|].
  rewrite reconcile_snoc. unfold unique_configs.
  rewrite tool_configs_upsert. by apply unique_write.
Qed.

Lemma elem_of_reconcile_ne tid K t c :
  ¬ (ToolConfig.tool_kit_id c = tid ∧ ToolConfig.key c ∈ K.*1) →
  c ∈ tool_configs (reconcile tid K t) ↔ c ∈ tool_configs t.
Proof.
  intros Hc. induction K as [|e K IH] using rev_ind; [done|].
  rewrite reconcile_snoc, tool_configs_upsert.
  rewrite fmap_app, elem_of_app in Hc. simpl in Hc.
  rewrite list_elem_of_singleton in Hc.
  rewrite elem_of_write_ne; [apply IH; tauto|].
  intros [? ?]. apply Hc. split; [done|]. by right.
Qed.
End tables.

(** ** The handlers of tool_config.py, run on a session *)

Section session.
Implicit Types (s : Session) (t db : Tables) (K : list (pystr * pystr)).
Implicit Types (toolkit : instance ToolKit.t).

Lemma for_each_cons {A} (x : A) l (body : A → M unit) s :
  for_each (x :: l) body s =
  match body x s with
  | (Return _, s') => for_each l body s'
  | (Raise e, s') => (Raise e, s')
  end.
Proof. done. Qed.

Lemma entry_of_Some obj k v :
  entry_of obj = Some (k, v) ↔
  attributes obj !! "key" = Some k ∧ attributes obj !! "value" = Some v.
Proof.
  unfold entry_of.
  destruct (attributes obj !! "key") as [k'|], (attributes obj !! "value") as [v'|];
    simpl; split; (intros [? ?] || intros ?); by simplify_eq.
Qed.

Lemma entry_of_tool_config_data e : entry_of (tool_config_data e) = Some e.
Proof. destruct e as [k v]. by apply entry_of_Some. Qed.

Lemma entries_tool_config_data K : mapM entry_of (tool_config_data <$> K) = Some K.
Proof.
  induction K as [|e K IH]; [done|].
  rewrite fmap_cons. simpl. by rewrite entry_of_tool_config_data, IH.
Qed.

Lemma create_or_update_step_entry toolkit obj e s :
  entry_of obj = Some e →
  ∃ sts,
    create_or_update_step toolkit obj s =
    (Return tt,
     mkSession (database s) (upsert (ToolKit.id toolkit.2) (pending s) e)
       (statements s ++ sts)).
Proof.
  destruct e as [k v]. intros [Hk Hv]%entry_of_Some.
  unfold create_or_update_step, getattr, query_ToolConfig_key_first,
    set_value, add_ToolConfig, upsert, write.
  rewrite Hk, Hv. run.
  destruct (list_find _ (tool_configs (pending s))) as [[i c]|]; simpl;
    eexists; by rewrite <- app_assoc.
Qed.

Lemma create_or_update_step_malformed toolkit obj s :
  entry_of obj = None →
  ∃ e, create_or_update_step toolkit obj s = (Raise e, s).
Proof.
  unfold entry_of, create_or_update_step, getattr.
  destruct (attributes obj !! "key") as [k|]; run; [|by eexists].
  destruct (attributes obj !! "value") as [v|]; run; [done|by eexists].
Qed.

Lemma create_or_update_loop toolkit objs s :
  match mapM entry_of objs with
  | Some K =>
      ∃ sts,
        for_each objs (create_or_update_step toolkit) s =
        (Return tt,
         mkSession (database s) (reconcile (ToolKit.id toolkit.2) K (pending s))
           (statements s ++ sts))
  | None =>
      ∃ e s',
        for_each objs (create_or_update_step toolkit) s = (Raise e, s') ∧
        database s' = database s
  end.
Proof.
  revert s. induction objs as [|obj objs IH]; intros s.
  - exists []. simpl. rewrite app_nil_r. by destruct s.
  - rewrite for_each_cons. simpl.
    destruct (entry_of obj) as [e|] eqn:He; simpl.
    + destruct (create_or_update_step_entry toolkit obj e s He) as [sts Hs].
      rewrite Hs.
      specialize (IH (mkSession (database s)
        (upsert (ToolKit.id toolkit.2) (pending s) e) (statements s ++ sts))).
      destruct (mapM entry_of objs) as [K|]; simpl in *.
      * destruct IH as [sts' ->]. exists (sts ++ sts'). by rewrite app_assoc.
      * done.
    + destruct (create_or_update_step_malformed toolkit obj s He) as [e Hs].
      rewrite Hs. by exists e, s.
Qed.

(** What one run of [create_or_update_tool_config] returns and leaves in
    the store. *)
Lemma create_or_update_run name objs db :
  let r := request (create_or_update_tool_config name objs) db in
  match list_find (λ k, ToolKit.name k = name) (tool_kits db) with
  | None =>
      outcome r = Raise (HTTPException 404 (Literal "ToolKit not found")) ∧
      store r = db
  | Some toolkit =>
      match mapM entry_of objs with
      | Some K =>
          outcome r = Return toolkit.2 ∧
          store r = reconcile (ToolKit.id toolkit.2) K db
      | None => (∃ e, outcome r = Raise e) ∧ store r = db
      end
  end.
Proof.
  unfold request, create_or_update_tool_config, query_ToolKit_name_first.
  run.
  destruct (list_find _ (tool_kits db)) as [[i tk]|] eqn:Hfind; simpl; [|done].
  pose proof (create_or_update_loop (i, tk) objs
    (mkSession db db [SELECT_tool_kits_name name])) as Hloop.
  destruct (mapM entry_of objs) as [K|].
  - destruct Hloop as [sts ->]. unfold refresh. run.
    rewrite tool_kits_reconcile.
    apply list_find_Some in Hfind as (-> & _ & _). done.
  - destruct Hloop as (e & s' & -> & Hdb). simpl. split; [by exists e|done].
Qed.
End session.

Section update_only.
Implicit Types (s : Session) (t db : Tables).
Implicit Types (tool_kit : instance ToolKit.t) (config : json).

Lemma same_rows_refl t : same_rows t t.
Proof. done. Qed.

Lemma same_rows_trans a b c : same_rows a b → same_rows b c → same_rows a c.
Proof. intros (? & ? & ?) (? & ? & ?). split_and!; congruence. Qed.

Lemma config_pairs_identity (l : list ToolConfig.t) :
  config_pairs l = (λ x, (x.1.2, x.2)) <$> (row_identity <$> l).
Proof. unfold config_pairs. by rewrite <- list_fmap_compose. Qed.

Lemma configs_for_nil_pairs tid k (l : list ToolConfig.t) :
  configs_for tid k l = [] ↔ (tid, k) ∉ config_pairs l.
Proof.
  rewrite <- first_value_None_pairs. split; [|apply configs_for_None].
  induction l as [|c l IH]; [done|].
  unfold configs_for in *. rewrite filter_cons, first_value_cons.
  case_decide; [done|]. apply IH.
Qed.

Lemma update_step_keyless tool_kit config s :
  keyless config → update_tool_config_step tool_kit config s = (Return tt, s).
Proof.
  destruct config as [d|]; [|done]. simpl. intros Hd.
  unfold update_tool_config_step, dict_get. run. rewrite Hd.
  by rewrite decide_False by (by intros H).
Qed.

Lemma update_step_dict tool_kit d s :
  ∃ s', update_tool_config_step tool_kit (JDict d) s = (Return tt, s').
Proof.
  unfold update_tool_config_step, dict_get, query_ToolConfig_key_first,
    set_value.
  run. case_decide; [|by eexists].
  destruct (list_find _ (tool_configs (pending s))) as [[i c]|];
    by eexists.
Qed.

Lemma update_step_same tool_kit config db s r s' :
  same_rows (database s) db → same_rows (pending s) db →
  update_tool_config_step tool_kit config s = (r, s') →
  same_rows (database s') db ∧ same_rows (pending s') db.
Proof.
  intros Hd Hp. destruct config as [d|].
  - unfold update_tool_config_step, dict_get, query_ToolConfig_key_first,
      set_value.
    run. case_decide; [|by intros [= <- <-]].
    destruct (list_find _ (tool_configs (pending s))) as [[i c]|] eqn:Hf.
    + intros [= <- <-]. simpl.
      assert (same_rows
        (mkTables (tool_kits (pending s))
           (<[i := ToolConfig.with_value (mjoin (d !! "value")) c]>
              (tool_configs (pending s)))
           (tool_configs_id_seq (pending s))) db) as Hnew; [|done].
      apply same_rows_trans with (pending s); [|done].
      split_and!; [done| |done]. simpl.
      by eapply row_identity_write_found.
    + by intros [= <- <-].
  - unfold update_tool_config_step, dict_get. run. by intros [= <- <-].
Qed.

Lemma update_loop_same tool_kit configs db s r s' :
  same_rows (database s) db → same_rows (pending s) db →
  for_each configs (update_tool_config_step tool_kit) s = (r, s') →
  same_rows (database s') db ∧ same_rows (pending s') db.
Proof.
  revert s. induction configs as [|config configs IH]; intros s Hd Hp.
  - by intros [= <- <-].
  - rewrite for_each_cons.
    destruct (update_tool_config_step tool_kit config s) as [[[]|e] s1] eqn:Hs;
      pose proof (update_step_same _ _ _ _ _ _ Hd Hp Hs) as [Hd1 Hp1].
    + by apply IH.
    + by intros [= <- <-].
Qed.

Lemma update_loop_dicts tool_kit configs s :
  Forall is_dict configs →
  ∃ s', for_each configs (update_tool_config_step tool_kit) s = (Return tt, s').
Proof.
  intros Hall. revert s.
  induction Hall as [|config configs Hc _ IH]; intros s; [by eexists|].
  rewrite for_each_cons. destruct config as [d|]; [|done].
  destruct (update_step_dict tool_kit d s) as [s1 ->]. apply IH.
Qed.

Lemma update_loop_skips tool_kit configs s :
  for_each configs (update_tool_config_step tool_kit) s =
  for_each (filter (λ c, ¬ keyless c) configs)
    (update_tool_config_step tool_kit) s.
Proof.
  revert s. induction configs as [|config configs IH]; intros s; [done|].
  rewrite filter_cons. destruct (decide (¬ keyless config)) as [Hk|Hk].
  - rewrite !for_each_cons.
    by destruct (update_tool_config_step tool_kit config s) as [[[]|e] s1].
  - apply dec_stable in Hk.
    by rewrite for_each_cons, update_step_keyless.
Qed.

Lemma all_keyless_filter configs :
  Forall keyless configs → filter (λ c, ¬ keyless c) configs = [].
Proof.
  induction 1 as [|config configs Hc _ IH]; [done|].
  rewrite filter_cons, decide_False; [done|]. by intros Hn.
Qed.

(** What one run of [update_tool_config] returns and leaves behind, from
    what its loop does. *)
Lemma update_run name configs db :
  let r := request (update_tool_config name configs) db in
  match list_find (λ k, ToolKit.name k = name) (tool_kits db) with
  | None =>
      r = (Raise (HTTPException 500
                    (str (HTTPException 404 (Literal "Tool kit not found")))),
           db, [SELECT_tool_kits_name name])
  | Some tool_kit =>
      ∃ res s',
        for_each configs (update_tool_config_step tool_kit)
          (mkSession db db [SELECT_tool_kits_name name]) = (res, s') ∧
        r = (match res with
             | Return _ => Return updated_message
             | Raise e =>
                 if isinstance_Exception e
                 then Raise (HTTPException 500 (str e))
                 else Raise e
             end, database s', statements s')
  end.
Proof.
  unfold request, update_tool_config, try_except_Exception,
    get_tool_kit_from_name, query_ToolKit_name_first.
  run.
  destruct (list_find _ (tool_kits db)) as [tool_kit|]; simpl; [|done].
  destruct (for_each configs _ _) as [[[]|e] s'] eqn:Hloop; simpl.
  - by exists (Return tt), s'.
  - exists (Raise e), s'. split; [done|].
    by destruct (isinstance_Exception e).
Qed.
End update_only.

(** * The claims *)

(** ** Analytics handlers *)

Section analytics_facts.
Context {R : Type}.
Implicit Types (helper : M R) (s : Session).

Lemma get_metrics_converts helper s e s' :
  helper s = (Raise e, s') →
  get_metrics helper s =
  (Raise (HTTPException 500 (Literal "Internal Server Error")), s').
Proof. unfold get_metrics, try_except, raise. by intros ->. Qed.

Lemma get_agents_converts helper s e s' :
  helper s = (Raise e, s') →
  get_agents helper s =
  (Raise (HTTPException 500 (Literal "Internal Server Error")), s').
Proof. unfold get_agents, try_except, raise. by intros ->. Qed.

Lemma get_active_runs_converts helper s e s' :
  helper s = (Raise e, s') →
  isinstance_Exception e = true →
  get_active_runs helper s = (Raise (HTTPException 500 (str e)), s').
Proof.
  unfold get_active_runs, try_except_Exception. by intros -> ->.
Qed.

Lemma get_tools_used_converts helper s e s' :
  helper s = (Raise e, s') →
  isinstance_Exception e = true →
  get_tools_used helper s = (Raise (HTTPException 500 (str e)), s').
Proof.
  unfold get_tools_used, try_except_Exception. by intros -> ->.
Qed.

(** C4 (the code departs from the claim): whenever the helper call of
    [GET /agents/{agent_id}] fails, the handler's own error path fails
    too: reading the unbound name [e] raises [NameError], and no
    [HTTPException] with status 500 is ever built. *)
Theorem get_agent_runs_error_path_raises_NameError
    (fetch_agent_runs : Z → M R) agent_id s e s' :
  fetch_agent_runs agent_id s = (Raise e, s') →
  get_agent_runs fetch_agent_runs agent_id s = (Raise (NameError "e"), s').
Proof. unfold get_agent_runs, try_except. by intros ->. Qed.
End analytics_facts.

Lemma get_agent_runs_error_path_witness :
  outcome (request (get_agent_runs failing_helper 3) example_store) =
  Raise (NameError "e").
Proof.
  unfold request.
  by rewrite (get_agent_runs_error_path_raises_NameError failing_helper 3
                (mkSession example_store example_store [])
                (OtherException "boom")
                (mkSession example_store example_store [])).
Defined.

(** ** The marketplace index aggregator *)

Section vector_db_index_claims.
Context {vstore : VectorStore}.

(** C6: every summary of either group of the response is the dictionary
    built for one enumerated index, and its field "is_valid_state" is
    present with value true when that index's state is not "CUSTOM" and
    absent when it is "CUSTOM" (so never present with value false). *)
Theorem is_valid_state_present_unless_custom
    knowledge_id organisation group ds d :
  get_marketplace_valid_indices knowledge_id organisation !! group = Some ds →
  d ∈ ds →
  ∃ p, p ∈ enumerated organisation ∧
       d = index_data knowledge_id p.2 ∧
       d !! "is_valid_state" =
         if decide (get_index_state (VectorIndexCollection.id p.2) = "CUSTOM")
         then None else Some (PyBool true).
Proof.
  unfold get_marketplace_valid_indices.
  rewrite valid_indices_groups. simpl.
  intros Hg Hd.
  assert (∃ P (H : ∀ p, Decision (P p)),
            ds = summaries knowledge_id P (enumerated organisation))
    as (P & H & ->).
  { destruct (decide (group = "qdrant")) as [->|Hq].
    - rewrite lookup_insert_eq in Hg. injection Hg as <-. by eexists _, _.
    - rewrite lookup_insert_ne in Hg by done.
      destruct (decide (group = "pinecone")) as [->|Hp].
      + rewrite lookup_insert_eq in Hg. injection Hg as <-. by eexists _, _.
      + by rewrite lookup_insert_ne, lookup_empty in Hg. }
  unfold summaries in Hd.
  apply list_elem_of_fmap in Hd as (p & -> & Hp).
  apply list_elem_of_filter in Hp as [_ Hp].
  exists p. split_and!; [done|done|]. apply index_data_is_valid_state.
Qed.

(** C7: the response has exactly the two groups "pinecone" and "qdrant";
    the first holds, in enumeration order, the summaries of the indices
    whose vector db has db_type "PINECONE", the second those of every
    other db_type; together they are the summaries of all enumerated
    indices, each exactly once. *)
Theorem groups_partition_by_db_type knowledge_id organisation :
  let out := get_marketplace_valid_indices knowledge_id organisation in
  let ps := enumerated organisation in
  out !! "pinecone" = Some (summaries knowledge_id is_pinecone ps) ∧
  out !! "qdrant" = Some (summaries knowledge_id (λ p, ¬ is_pinecone p) ps) ∧
  dom out = {[ "pinecone"; "qdrant" ]} ∧
  summaries knowledge_id is_pinecone ps ++
    summaries knowledge_id (λ p, ¬ is_pinecone p) ps
  ≡ₚ (λ p, index_data knowledge_id p.2) <$> ps.
Proof.
  unfold get_marketplace_valid_indices.
  rewrite valid_indices_groups. simpl. split_and!.
  - by rewrite lookup_insert_ne, lookup_insert_eq.
  - by rewrite lookup_insert_eq.
  - rewrite !dom_insert_L, dom_empty_L. set_solver.
  - unfold summaries. rewrite <- fmap_app.
    by rewrite filter_app_complement.
Qed.
End vector_db_index_claims.

Lemma is_valid_state_witness :
  let d := index_data (vstore := example_vector_store) 5
             (VectorIndexCollection.mk 7 1 "docs") in
  ∃ p, p ∈ enumerated (vstore := example_vector_store) (Organisation.mk 10) ∧
       d = index_data (vstore := example_vector_store) 5 p.2 ∧
       d !! "is_valid_state" =
         if decide (example_state (VectorIndexCollection.id p.2) = "CUSTOM")
         then None else Some (PyBool true).
Proof.
  apply (is_valid_state_present_unless_custom (vstore := example_vector_store)
           5 (Organisation.mk 10) "pinecone"
           [index_data (vstore := example_vector_store) 5
              (VectorIndexCollection.mk 7 1 "docs")]).
  - vm_compute. reflexivity.
  - apply list_elem_of_singleton. reflexivity.
Defined.

(** ** The configuration reconciler *)

(** C1: when the toolkit [T] the name resolves to exists and the store has
    at most one config per (tool_kit_id, key), the full upsert of the
    entries [K] succeeds and returns [T]; afterwards the store still has at
    most one config per (tool_kit_id, key), every key of [K] has exactly
    one row for [T], whose value is that of the key's last occurrence in
    [K], and the rows of other toolkits and of keys not in [K] are those
    there were before. *)
Theorem create_or_update_one_row_per_key db name i T K :
  list_find (λ k, ToolKit.name k = name) (tool_kits db) = Some (i, T) →
  unique_configs db →
  let r := request (create_or_update_tool_config name (tool_config_data <$> K)) db in
  outcome r = Return T ∧
  tool_kits (store r) = tool_kits db ∧
  unique_configs (store r) ∧
  (∀ k, k ∈ K.*1 →
     ∃ c, configs_for (ToolKit.id T) k (tool_configs (store r)) = [c] ∧
          last_value K k = Some (ToolConfig.value c)) ∧
  (∀ c, ¬ (ToolConfig.tool_kit_id c = ToolKit.id T ∧ ToolConfig.key c ∈ K.*1) →
     c ∈ tool_configs (store r) ↔ c ∈ tool_configs db).
Proof.
  intros Hfind Hdb r.
  pose proof (create_or_update_run name (tool_config_data <$> K) db) as Hrun.
  simpl in Hrun. rewrite Hfind, entries_tool_config_data in Hrun.
  destruct Hrun as [Hout Hstore]. fold r in Hout, Hstore. simpl in *.
  rewrite Hstore. split_and!.
  - done.
  - apply tool_kits_reconcile.
  - by apply unique_reconcile.
  - intros k [v Hv]%last_value_is_Some.
    destruct (unique_configs_for (ToolKit.id T) k v
                (tool_configs (reconcile (ToolKit.id T) K db)))
      as (c & Hc & <-).
    + by apply unique_reconcile.
    + by rewrite first_value_reconcile, Hv.
    + by exists c.
  - intros c Hc. by apply elem_of_reconcile_ne.
Qed.

Lemma create_or_update_one_row_per_key_witness :
  let r := request (create_or_update_tool_config "web-search"
                      (tool_config_data <$> example_entries)) example_store in
  outcome r = Return web_search ∧
  tool_kits (store r) = tool_kits example_store ∧
  unique_configs (store r) ∧
  (∀ k, k ∈ example_entries.*1 →
     ∃ c, configs_for (ToolKit.id web_search) k (tool_configs (store r)) = [c] ∧
          last_value example_entries k = Some (ToolConfig.value c)) ∧
  (∀ c, ¬ (ToolConfig.tool_kit_id c = ToolKit.id web_search ∧
           ToolConfig.key c ∈ example_entries.*1) →
     c ∈ tool_configs (store r) ↔ c ∈ tool_configs example_store).
Proof.
  apply (create_or_update_one_row_per_key example_store "web-search" 0%nat
           web_search example_entries).
  - vm_compute. reflexivity.
  - unfold unique_configs. simpl. apply NoDup_singleton.
Defined.

(** C2 (the code departs from the claim): when no toolkit has the given
    name, neither entry point touches the store, and
    [create_or_update_tool_config] fails with status 404; but
    [update_tool_config] raises its 404 inside its own [try], whose
    [except Exception] clause catches it and raises status 500 instead. *)
Theorem update_tool_config_missing_toolkit_is_500 db name configs objs :
  list_find (λ k, ToolKit.name k = name) (tool_kits db) = None →
  let r := request (update_tool_config name configs) db in
  let r' := request (create_or_update_tool_config name objs) db in
  outcome r = Raise (HTTPException 500
                       (str (HTTPException 404 (Literal "Tool kit not found")))) ∧
  store r = db ∧
  outcome r' = Raise (HTTPException 404 (Literal "ToolKit not found")) ∧
  store r' = db.
Proof.
  intros Hfind r r'.
  pose proof (update_run name configs db) as Hr.
  pose proof (create_or_update_run name objs db) as Hr'.
  simpl in Hr, Hr'. rewrite Hfind in Hr, Hr'.
  fold r in Hr. fold r' in Hr'. rewrite Hr. by destruct Hr' as [-> ->].
Qed.

Lemma update_tool_config_missing_toolkit_witness :
  let r := request (update_tool_config "calendar" example_configs) example_store in
  let r' := request (create_or_update_tool_config "calendar"
                       (tool_config_data <$> example_entries)) example_store in
  outcome r = Raise (HTTPException 500
                       (str (HTTPException 404 (Literal "Tool kit not found")))) ∧
  store r = example_store ∧
  outcome r' = Raise (HTTPException 404 (Literal "ToolKit not found")) ∧
  store r' = example_store.
Proof.
  apply (update_tool_config_missing_toolkit_is_500 example_store "calendar"
           example_configs (tool_config_data <$> example_entries)).
  vm_compute. reflexivity.
Defined.

(** C3: whatever the name and the entries, and whether it succeeds or
    fails, [update_tool_config] leaves the toolkits, the primary-key
    sequence and the rows of [tool_configs] as they were up to the rows'
    values: the same (id, tool_kit_id, key) rows in the same order. So the
    (tool_kit_id, key) pairs are the same, and a pair that had no row has
    none afterwards. *)
Theorem update_tool_config_never_creates db name configs :
  let r := request (update_tool_config name configs) db in
  same_rows (store r) db ∧
  config_pairs (tool_configs (store r)) = config_pairs (tool_configs db) ∧
  (∀ tid k, configs_for tid k (tool_configs db) = [] →
            configs_for tid k (tool_configs (store r)) = []).
Proof.
  intros r.
  assert (same_rows (store r) db) as Hsame.
  { pose proof (update_run name configs db) as Hr. simpl in Hr. fold r in Hr.
    destruct (list_find _ (tool_kits db)) as [tool_kit|].
    - destruct Hr as (res & s' & Hloop & ->).
      by destruct (update_loop_same tool_kit configs db
                     (mkSession db db [SELECT_tool_kits_name name]) res s'
                     (same_rows_refl db) (same_rows_refl db) Hloop) as [? _].
    - by rewrite Hr. }
  assert (config_pairs (tool_configs (store r)) = config_pairs (tool_configs db))
    as Hpairs.
  { rewrite !config_pairs_identity. by destruct Hsame as (_ & -> & _). }
  split_and!; [done|done|].
  intros tid k. rewrite !configs_for_nil_pairs. by rewrite Hpairs.
Qed.

(** C5 (the code departs from the claim): [get_tool_config] answers 403
    "Unauthorized" to every request, whoever owns the toolkit and whether
    or not the key exists: the query of line 151 is never run, so what is
    tested for membership is a [Query] object, which is in no list of
    toolkits. *)
Theorem get_tool_config_always_unauthorized db toolkit key organisation :
  outcome (request (get_tool_config toolkit key organisation) db) =
  Raise (HTTPException 403 (Literal "Unauthorized")).
Proof.
  unfold request, get_tool_config, query_ToolKit_organisation_all.
  unfold mbind, M_bind, mret, M_ret, raise, log, get_pending. simpl.
  assert (∀ l, py_in (Query_filter_by_name toolkit) l = false) as ->;
    [|done].
  induction l as [|o l IH]; [done|]. simpl. apply IH.
Qed.

(** The failing request of C5: organisation 10 owns "web-search", which has
    a config "region"; the sibling handler [get_all_tool_configs] serves
    the same organisation. *)
Lemma get_tool_config_owner_refused :
  outcome (request (get_tool_config "web-search" "region" (Organisation.mk 10))
             example_store) =
  Raise (HTTPException 403 (Literal "Unauthorized")) ∧
  outcome (request (get_all_tool_configs "web-search" (Organisation.mk 10))
             example_store) =
  Return [ToolConfig.mk 1 1 (Some "region") (Some "eu")].
Proof.
  split.
  - apply (get_tool_config_always_unauthorized example_store "web-search"
             "region" (Organisation.mk 10)).
  - vm_compute. reflexivity.
Defined.

(** C8: for every store, name and input list, running the full upsert a
    second time on the store the first run left gives the same store and
    the same outcome. *)
Theorem create_or_update_idempotent db name objs :
  let r1 := request (create_or_update_tool_config name objs) db in
  let r2 := request (create_or_update_tool_config name objs) (store r1) in
  store r2 = store r1 ∧ outcome r2 = outcome r1.
Proof.
  intros r1 r2.
  pose proof (create_or_update_run name objs db) as H1.
  pose proof (create_or_update_run name objs (store r1)) as H2.
  simpl in H1, H2. fold r1 in H1, H2. fold r2 in H2.
  destruct (list_find _ (tool_kits db)) as [[i tk]|] eqn:Hfind.
  - destruct (mapM entry_of objs) as [K|].
    + destruct H1 as [Hout Hstore]. simpl in *.
      rewrite Hstore, tool_kits_reconcile, Hfind in H2. simpl in H2.
      destruct H2 as [-> ->].
      by rewrite Hstore, reconcile_idempotent.
    + destruct H1 as [_ Hstore]. unfold r2. by rewrite Hstore.
  - destruct H1 as [_ Hstore]. unfold r2. by rewrite Hstore.
Qed.

(** By contrast [update_tool_config] commits inside its loop: a request
    that fails on its second element has already stored the first. *)
Example update_tool_config_keeps_partial_work :
  let r := request (update_tool_config "web-search"
                      [JDict (<["key" := Some "region"]> (<["value" := Some "us"]> ∅));
                       JOther]) example_store in
  outcome r = Raise (HTTPException 500
                       (str (AttributeError "object has no attribute 'get'"))) ∧
  tool_configs (store r) = [ToolConfig.mk 1 1 (Some "region") (Some "us")].
Proof. split; vm_compute; reflexivity. Qed.

(** The same failure under the full upsert stores nothing. *)
Example create_or_update_drops_partial_work :
  let r := request (create_or_update_tool_config "web-search"
                      [tool_config_data (Some "region", Some "us");
                       PyObject ∅]) example_store in
  outcome r = Raise (AttributeError "object has no attribute 'key'") ∧
  store r = example_store.
Proof. split; vm_compute; reflexivity. Qed.

(** C9: a run of the full upsert that fails, at whatever point, leaves the
    store as it was; a run that succeeds has read an entry off every
    element of the input and leaves the store that all of them produce: a
    lookup of any input key then finds the value of its last occurrence. *)
Theorem create_or_update_atomic db name objs :
  let r := request (create_or_update_tool_config name objs) db in
  match outcome r with
  | Raise _ => store r = db
  | Return T =>
      ∃ K, mapM entry_of objs = Some K ∧
           store r = reconcile (ToolKit.id T) K db ∧
           ∀ k v, last_value K k = Some v →
                  first_value (ToolKit.id T) k (tool_configs (store r)) = Some v
  end.
Proof.
  intros r. pose proof (create_or_update_run name objs db) as Hr.
  simpl in Hr. fold r in Hr.
  destruct (list_find _ (tool_kits db)) as [[i tk]|].
  - destruct (mapM entry_of objs) as [K|]; simpl in *.
    + destruct Hr as [-> Hstore]. exists K. split_and!; [done|done|].
      intros k v Hv. by rewrite Hstore, first_value_reconcile, Hv.
    + by destruct Hr as [[e ->] ->].
  - by destruct Hr as [-> ->].
Qed.

(** C10: [update_tool_config] passes over the entries whose "key" is
    missing or None: the request returns the same, leaves the same store
    and issues the same statements as the request without them, and when
    every entry is such, the store is untouched and nothing is read from or
    written to [tool_configs]. A successful request returns the fixed
    message, and a request naming an existing toolkit with a list of
    dictionaries is successful, whatever matched. *)
Theorem update_tool_config_skips_keyless db name configs :
  let r := request (update_tool_config name configs) db in
  r = request (update_tool_config name (filter (λ c, ¬ keyless c) configs)) db ∧
  (Forall keyless configs →
     store r = db ∧ Forall (λ st, ¬ touches_tool_configs st) (issued r)) ∧
  (∀ body, outcome r = Return body → body = updated_message) ∧
  (is_Some (list_find (λ k, ToolKit.name k = name) (tool_kits db)) →
   Forall is_dict configs →
   outcome r = Return updated_message).
Proof.
  intros r.
  assert (r = request (update_tool_config name (filter (λ c, ¬ keyless c) configs)) db)
    as Hskip.
  { unfold r, request, update_tool_config, try_except_Exception,
      get_tool_kit_from_name, query_ToolKit_name_first.
    unfold mbind, M_bind, mret, M_ret, raise, log, get_pending. simpl.
    destruct (list_find _ (tool_kits db)) as [tool_kit|]; [|done].
    by rewrite update_loop_skips. }
  pose proof (update_run name configs db) as Hr. simpl in Hr. fold r in Hr.
  split_and!.
  - done.
  - intros Hall. rewrite Hskip.
    rewrite (all_keyless_filter configs Hall).
    unfold request, update_tool_config, try_except_Exception,
      get_tool_kit_from_name, query_ToolKit_name_first.
    unfold mbind, M_bind, mret, M_ret, raise, log, get_pending. simpl.
    destruct (list_find _ (tool_kits db)) as [tool_kit|]; simpl;
      (split; [done|]); repeat constructor; by intros [].
  - intros body.
    destruct (list_find _ (tool_kits db)) as [tool_kit|].
    + destruct Hr as (res & s' & _ & ->). unfold outcome. simpl.
      destruct res as [[]|e]; [congruence|].
      by destruct (isinstance_Exception e).
    + by rewrite Hr.
  - intros [tool_kit Hfind] Hall. rewrite Hfind in Hr.
    destruct Hr as (res & s' & Hloop & ->).
    destruct (update_loop_dicts tool_kit configs
                (mkSession db db [SELECT_tool_kits_name name]) Hall)
      as [s1 Hs1].
    rewrite Hs1 in Hloop. by injection Hloop as <- <-.
Qed.

Lemma update_tool_config_skips_keyless_witness :
  let r := request (update_tool_config "web-search" example_configs) example_store in
  r = request (update_tool_config "web-search"
                 (filter (λ c, ¬ keyless c) example_configs)) example_store ∧
  outcome r = Return updated_message ∧
  issued r = [SELECT_tool_kits_name "web-search";
              SELECT_tool_configs_key 1 (Some "region");
              UPDATE_tool_configs 0 (Some "us"); COMMIT].
Proof.
  pose proof (update_tool_config_skips_keyless example_store "web-search"
                example_configs) as (Hskip & _ & _ & Hok).
  split_and!.
  - exact Hskip.
  - apply Hok.
    + vm_compute. by eexists.
    + repeat constructor.
  - vm_compute. reflexivity.
Defined.

(** ** The scenarios of the spec *)

(** Toolkit "web-search" without configs, reconciled with the key
    "api_key" twice: the config holds the second value. *)
Example scenario_last_write_wins :
  tool_configs
    (store (request (create_or_update_tool_config "web-search"
                       (tool_config_data <$> example_entries))
              (mkTables [web_search] [] 1))) =
  [ToolConfig.mk 1 1 (Some "api_key") (Some "B")].
Proof. vm_compute. reflexivity. Qed.

(** One PINECONE database with one index in state "ACTIVE" and a matching
    dimension. *)
Example scenario_one_pinecone_index :
  get_marketplace_valid_indices (vstore := example_vector_store) 5
    (Organisation.mk 10) =
  <["qdrant" := []]>
    (<["pinecone" :=
         [<["is_valid_state" := PyBool true]>
            (<["is_valid_dimension" := PyBool true]>
               (<["name" := PyStr "docs"]> (<["id" := PyInt 7]> ∅)))]]> ∅).
Proof. vm_compute. reflexivity. Qed.

(** * Further properties *)

(** ** [update_tool_config] as a function of the store *)

Section update_only_store.
Implicit Types (s : Session) (t db : Tables) (K : list (pystr * pystr)).
Implicit Types (tool_kit : instance ToolKit.t) (e : pystr * pystr).

Lemma present_pairs tid k (l : list ToolConfig.t) :
  is_Some (first_value tid k l) ↔ (tid, k) ∈ config_pairs l.
Proof.
  rewrite <- not_eq_None_Some, first_value_None_pairs.
  split; [apply dec_stable | by intros ? ?].
Qed.

Lemma updatable_same_pairs tid t t' e :
  config_pairs (tool_configs t) = config_pairs (tool_configs t') →
  updatable tid t e ↔ updatable tid t' e.
Proof. intros Hp. unfold updatable. by rewrite !present_pairs, Hp. Qed.

Lemma config_pairs_upsert tid t e :
  is_Some (first_value tid e.1 (tool_configs t)) →
  config_pairs (tool_configs (upsert tid t e)) = config_pairs (tool_configs t).
Proof.
  intros [v Hv]. by rewrite tool_configs_upsert, config_pairs_write, Hv.
Qed.

Lemma config_pairs_reconcile_updatable tid t K :
  Forall (updatable tid t) K →
  config_pairs (tool_configs (reconcile tid K t)) = config_pairs (tool_configs t).
Proof.
  induction K as [|e K IH] using rev_ind; [done|].
  rewrite Forall_app, Forall_singleton. intros [HK [_ He]].
  rewrite reconcile_snoc, config_pairs_upsert; [by apply IH|].
  apply present_pairs. rewrite IH by done. by apply present_pairs.
Qed.

Lemma update_step_run tool_kit d s :
  pending s = database s →
  ∃ sts,
    update_tool_config_step tool_kit (JDict d) s =
    (Return tt,
     let t := if decide (updatable (ToolKit.id tool_kit.2) (pending s) (dict_entry d))
              then upsert (ToolKit.id tool_kit.2) (pending s) (dict_entry d)
              else pending s in
     mkSession t t (statements s ++ sts)).
Proof.
  intros Hs. destruct s as [t0 t sts0]. simpl in Hs. subst t0.
  unfold update_tool_config_step, dict_get, query_ToolConfig_key_first,
    set_value.
  run.
  destruct (decide (updatable (ToolKit.id tool_kit.2) t (dict_entry d)))
    as [[Hk [v Hv]]|Hu]; simpl in *.
  - rewrite (decide_True (P := mjoin (d !! "key") ≠ None)) by done.
    unfold first_value in Hv. unfold upsert, write. simpl.
    destruct (list_find _ (tool_configs t)) as [[i c]|]; [|discriminate Hv].
    simpl. eexists. by rewrite <- !app_assoc.
  - destruct (decide (mjoin (d !! "key") ≠ None)) as [Hk|Hk]; simpl.
    + destruct (list_find (config_matches _ _) (tool_configs t))
        as [[i c]|] eqn:Hf.
      * destruct Hu. split; [done|]. unfold first_value. simpl.
        rewrite Hf. by eexists.
      * by eexists.
    + exists []. by rewrite app_nil_r.
Qed.

Lemma update_loop_run tool_kit configs s :
  pending s = database s →
  ∃ sts,
    for_each configs (update_tool_config_step tool_kit) s =
    (if decide (Forall is_dict configs) then Return tt
     else Raise (AttributeError "object has no attribute 'get'"),
     let t := reconcile (ToolKit.id tool_kit.2)
                (filter (updatable (ToolKit.id tool_kit.2) (pending s))
                   (leading_entries configs))
                (pending s) in
     mkSession t t (statements s ++ sts)).
Proof.
  revert s. induction configs as [|config configs IH]; intros s Hs.
  - exists []. simpl. rewrite app_nil_r. destruct s; simpl in *. by subst.
  - rewrite for_each_cons. destruct config as [d|].
    + destruct (update_step_run tool_kit d s Hs) as [sts ->]. simpl.
      set (tid := ToolKit.id tool_kit.2). set (e := dict_entry d).
      set (t1 := if decide (updatable tid (pending s) e)
                 then upsert tid (pending s) e else pending s).
      destruct (IH (mkSession t1 t1 (statements s ++ sts)) eq_refl)
        as [sts' ->].
      simpl. fold tid. exists (sts ++ sts'). f_equal.
      * destruct (decide (Forall is_dict configs)) as [Ha|Ha].
        -- by rewrite decide_True by (by constructor).
        -- rewrite decide_False; [done|]. by intros [_ ?]%Forall_cons.
      * rewrite app_assoc. rewrite filter_cons. fold e.
        unfold t1. destruct (decide (updatable tid (pending s) e)) as [He|He].
        -- rewrite (list_filter_iff (updatable tid (upsert tid (pending s) e))
                      (updatable tid (pending s))); [done|].
           intros e'. apply updatable_same_pairs, config_pairs_upsert.
           by destruct He.
        -- done.
    + unfold update_tool_config_step, dict_get. run.
      exists []. rewrite app_nil_r.
      destruct s; simpl in *. by subst.
Qed.

(** What [update_tool_config] returns and leaves in the store, as a
    function of the store and the body. *)
Lemma update_store name configs db :
  let r := request (update_tool_config name configs) db in
  match list_find (λ k, ToolKit.name k = name) (tool_kits db) with
  | None =>
      outcome r = Raise (HTTPException 500
                           (str (HTTPException 404 (Literal "Tool kit not found")))) ∧
      store r = db
  | Some tool_kit =>
      outcome r = (if decide (Forall is_dict configs)
                   then Return updated_message else Raise not_a_dict_error) ∧
      store r = reconcile (ToolKit.id tool_kit.2)
                  (filter (updatable (ToolKit.id tool_kit.2) db)
                     (leading_entries configs)) db
  end.
Proof.
  intros r. pose proof (update_run name configs db) as Hr. simpl in Hr.
  fold r in Hr.
  destruct (list_find _ (tool_kits db)) as [tool_kit|]; [|by rewrite Hr].
  destruct Hr as (res & s' & Hloop & ->).
  destruct (update_loop_run tool_kit configs
              (mkSession db db [SELECT_tool_kits_name name]) eq_refl)
    as [sts Hrun].
  rewrite Hrun in Hloop. injection Hloop as <- <-.
  unfold outcome, store. simpl. by destruct (decide (Forall is_dict configs)).
Qed.

Lemma leading_entries_dicts_app good rest :
  Forall is_dict good →
  leading_entries (good ++ JOther :: rest) = leading_entries good.
Proof.
  induction 1 as [|config good Hc _ IH]; [done|].
  destruct config as [d|]; [|done]. simpl. by rewrite IH.
Qed.

Lemma leading_entries_config_dict K :
  leading_entries (config_dict <$> K) = K.
Proof.
  induction K as [|[k v] K IH]; [done|].
  rewrite fmap_cons. simpl. by rewrite IH.
Qed.

Lemma config_dicts_are_dicts K : Forall is_dict (config_dict <$> K).
Proof. induction K as [|e K IH]; by constructor. Qed.

Lemma last_value_filter (P : pystr * pystr → Prop) `{!∀ e, Decision (P e)} K k :
  (∀ e, e ∈ K → e.1 = k → P e) →
  last_value (filter P K) k = last_value K k.
Proof.
  induction K as [|e K IH] using rev_ind; [done|].
  intros HP. rewrite filter_app, filter_cons, filter_nil.
  assert (last_value (filter P K) k = last_value K k) as IH'.
  { apply IH. intros e' He'. apply HP. rewrite elem_of_app. by left. }
  rewrite last_value_snoc. destruct (decide (P e)) as [He|He].
  - by rewrite last_value_snoc, IH'.
  - rewrite app_nil_r, IH'. rewrite decide_False; [done|].
    intros Hk. apply He, HP; [|done]. rewrite elem_of_app. right.
    by apply list_elem_of_singleton.
Qed.
End update_only_store.

Section further_lemmas.
Implicit Types (t db : Tables) (K : list (pystr * pystr)).

Lemma last_value_filter_none (P : pystr * pystr → Prop) `{!∀ e, Decision (P e)} K k :
  (∀ e, e ∈ K → e.1 = k → ¬ P e) →
  last_value (filter P K) k = None.
Proof.
  induction K as [|e K IH] using rev_ind; [done|].
  intros HP. rewrite filter_app, filter_cons, filter_nil.
  assert (last_value (filter P K) k = None) as IH'.
  { apply IH. intros e' He'. apply HP. rewrite elem_of_app. by left. }
  destruct (decide (P e)) as [He|He]; [|by rewrite app_nil_r].
  rewrite last_value_snoc, IH'. rewrite decide_False; [done|].
  intros Hk. apply (HP e); [|done|done]. rewrite elem_of_app. right.
  by apply list_elem_of_singleton.
Qed.

Lemma filter_all {A} (P : A → Prop) `{!∀ x, Decision (P x)} (l : list A) :
  Forall P l → filter P l = l.
Proof.
  induction 1 as [|x l Hx _ IH]; [done|].
  by rewrite filter_cons, decide_True, IH.
Qed.

Lemma filter_satisfies {A} (P : A → Prop) `{!∀ x, Decision (P x)} (l : list A) :
  Forall P (filter P l).
Proof. apply Forall_forall. by intros x [? _]%list_elem_of_filter. Qed.

Lemma filter_key_subset (P : pystr * pystr → Prop) `{!∀ e, Decision (P e)} K k :
  k ∈ (filter P K).*1 → k ∈ K.*1.
Proof.
  intros (e & -> & [_ He]%list_elem_of_filter)%list_elem_of_fmap.
  by apply list_elem_of_fmap_2.
Qed.

Lemma row_identity_write_prefix tid k v n (l : list ToolConfig.t) :
  row_identity <$> l `prefix_of` row_identity <$> write tid k v n l.
Proof.
  unfold write. destruct (list_find _ l) as [[i c]|] eqn:Hf.
  - by rewrite (row_identity_write_found tid k v i c l Hf).
  - rewrite fmap_app. by apply prefix_app_r.
Qed.

Lemma row_identity_reconcile_prefix tid K t :
  row_identity <$> tool_configs t
  `prefix_of` row_identity <$> tool_configs (reconcile tid K t).
Proof.
  induction K as [|e K IH] using rev_ind; [done|].
  rewrite reconcile_snoc, tool_configs_upsert.
  etrans; [exact IH|]. apply row_identity_write_prefix.
Qed.

Lemma owned_names org_id name (l : list ToolKit.t) :
  name ∈ (λ o : instance ToolKit.t, ToolKit.name o.2) <$>
         filter (λ o : instance ToolKit.t, ToolKit.organisation_id o.2 = org_id)
           (imap (λ i k, (i, k)) l)
  ↔ Exists (λ k, ToolKit.organisation_id k = org_id ∧ ToolKit.name k = name) l.
Proof.
  rewrite Exists_exists, list_elem_of_fmap. split.
  - intros ([i k] & -> & [Ho Hin]%list_elem_of_filter).
    apply elem_of_lookup_imap in Hin as (j & k' & [= -> ->] & Hj).
    exists k'. split; [by eapply list_elem_of_lookup_2|done].
  - intros (k & Hin & Ho & <-).
    apply list_elem_of_lookup_1 in Hin as [i Hi].
    exists (i, k). split; [done|]. apply list_elem_of_filter. split; [done|].
    by apply (elem_of_lookup_imap_2 (λ i k, (i, k))).
Qed.

(** What [get_all_tool_configs] returns, as a function of the store. *)
Lemma get_all_tool_configs_run name organisation db :
  let r := request (get_all_tool_configs name organisation) db in
  store r = db ∧
  outcome r =
    match list_find (λ k, ToolKit.name k = name) (tool_kits db) with
    | None => Raise (HTTPException 404 (Literal "ToolKit not found"))
    | Some toolkit =>
        if decide (owns_named (Organisation.id organisation) name db)
        then Return (configs_of (ToolKit.id toolkit.2) (tool_configs db))
        else Raise (HTTPException 403 (Literal "Unauthorized"))
    end.
Proof.
  unfold request, get_all_tool_configs, query_ToolKit_organisation_all,
    query_ToolKit_name_first, query_ToolConfig_all, owns_named, configs_of.
  run.
  destruct (list_find _ (tool_kits db)) as [[i tk]|] eqn:Hfind; simpl; [|done].
  apply list_find_Some in Hfind as (_ & Hname & _).
  destruct (decide (ToolKit.name tk ∉ _)) as [Hn|Hn]; simpl.
  - split; [done|]. rewrite decide_False; [done|].
    intros Ho. apply Hn. rewrite Hname. by apply owned_names.
  - split; [done|]. rewrite decide_True; [done|].
    apply dec_stable in Hn. rewrite Hname in Hn. by apply owned_names in Hn.
Qed.

Lemma owns_named_same_toolkits org_id name t t' :
  tool_kits t = tool_kits t' → owns_named org_id name t ↔ owns_named org_id name t'.
Proof. unfold owns_named. by intros ->. Qed.

Lemma configs_of_for tid k (l : list ToolConfig.t) :
  filter (λ c, ToolConfig.key c = k) (configs_of tid l) = configs_for tid k l.
Proof.
  unfold configs_of, configs_for. rewrite list_filter_filter.
  apply list_filter_iff. intros c. unfold config_matches. tauto.
Qed.
End further_lemmas.

Section vector_db_index_further.
Context {vstore : VectorStore}.

Lemma group_members knowledge_id organisation group ds d :
  get_marketplace_valid_indices knowledge_id organisation !! group = Some ds →
  d ∈ ds →
  ∃ p, p ∈ enumerated organisation ∧ d = index_data knowledge_id p.2.
Proof.
  unfold get_marketplace_valid_indices. rewrite valid_indices_groups. simpl.
  intros Hg Hd.
  destruct (decide (group = "qdrant")) as [->|Hq].
  - rewrite lookup_insert_eq in Hg. injection Hg as <-.
    apply list_elem_of_fmap in Hd as (p & -> & [_ Hp]%list_elem_of_filter).
    by exists p.
  - rewrite lookup_insert_ne in Hg by done.
    destruct (decide (group = "pinecone")) as [->|Hp].
    + rewrite lookup_insert_eq in Hg. injection Hg as <-.
      apply list_elem_of_fmap in Hd as (p & -> & [_ Hp]%list_elem_of_filter).
      by exists p.
    + by rewrite lookup_insert_ne, lookup_empty in Hg.
Qed.

Lemma enumerated_nil organisation :
  enumerated organisation = [] ↔
  ∀ v, v ∈ get_vector_db_organisation organisation →
       get_vector_index_organisation (Vectordb.id v) = [].
Proof.
  unfold enumerated.
  induction (get_vector_db_organisation organisation) as [|v vs IH].
  - split; [by intros _ v ?%elem_of_nil | done].
  - simpl. rewrite app_nil, IH. split.
    + intros [Hv Hvs] v' [->|Hin]%elem_of_cons; [|by apply Hvs].
      by apply fmap_nil_inv in Hv.
    + intros Hall. split.
      * rewrite (Hall v); [done|]. by left.
      * intros v' Hin. apply Hall. by right.
Qed.
End vector_db_index_further.

(** ** Further properties of the reconciler *)

(** X1: with the toolkit resolved to [T], [update_tool_config] is
    last-write-wins on the keys [T] already has and does nothing else: a
    key that has a row ends with the value of its last occurrence among
    the dictionaries the loop got through (or keeps its value when it does
    not occur), a key without a row still has none, and the rows of other
    toolkits and of keys that do not occur are as they were. *)
Theorem update_tool_config_last_write_wins db name configs i T key :
  list_find (λ k, ToolKit.name k = name) (tool_kits db) = Some (i, T) →
  let r := request (update_tool_config name configs) db in
  first_value (ToolKit.id T) (Some key) (tool_configs (store r)) =
    match first_value (ToolKit.id T) (Some key) (tool_configs db) with
    | None => None
    | Some old =>
        Some (default old (last_value (leading_entries configs) (Some key)))
    end ∧
  (∀ c, ¬ (ToolConfig.tool_kit_id c = ToolKit.id T ∧
           ToolConfig.key c ∈ (leading_entries configs).*1) →
        c ∈ tool_configs (store r) ↔ c ∈ tool_configs db).
Proof.
  intros Hfind r. pose proof (update_store name configs db) as Hr.
  simpl in Hr. fold r in Hr. rewrite Hfind in Hr. destruct Hr as [_ ->].
  simpl. split.
  - rewrite first_value_reconcile.
    destruct (first_value (ToolKit.id T) (Some key) (tool_configs db))
      as [old|] eqn:Hold.
    + rewrite last_value_filter; [by destruct (last_value _ _)|].
      intros e _ He. split; [by rewrite He|]. rewrite He, Hold. by eexists.
    + rewrite last_value_filter_none; [done|].
      intros e _ He [_ [v Hv]]. rewrite He, Hold in Hv. done.
  - intros c Hc. apply elem_of_reconcile_ne. intros [Ht Hk]. apply Hc.
    split; [done|]. by eapply filter_key_subset.
Qed.

Lemma update_tool_config_last_write_wins_witness :
  let r := request (update_tool_config "web-search" broken_configs) example_store in
  first_value 1 (Some "region") (tool_configs (store r)) = Some (Some "us") ∧
  first_value 1 (Some "api_key") (tool_configs (store r)) = None.
Proof.
  split.
  - apply (update_tool_config_last_write_wins example_store "web-search"
             broken_configs 0%nat web_search "region").
    vm_compute. reflexivity.
  - apply (update_tool_config_last_write_wins example_store "web-search"
             broken_configs 0%nat web_search "api_key").
    vm_compute. reflexivity.
Defined.

(** X2: [update_tool_config] commits as it goes and undoes nothing: when
    the body has an element that is no dictionary after dictionaries only,
    the request answers 500 and the store is the one the request with
    just those dictionaries leaves. *)
Theorem update_tool_config_keeps_committed_prefix db name good rest :
  is_Some (list_find (λ k, ToolKit.name k = name) (tool_kits db)) →
  Forall is_dict good →
  let r := request (update_tool_config name (good ++ JOther :: rest)) db in
  outcome r = Raise not_a_dict_error ∧
  store r = store (request (update_tool_config name good) db).
Proof.
  intros [tool_kit Hfind] Hgood r.
  pose proof (update_store name (good ++ JOther :: rest) db) as Hr.
  pose proof (update_store name good db) as Hg.
  simpl in Hr, Hg. fold r in Hr. rewrite Hfind in Hr, Hg.
  destruct Hr as [-> ->], Hg as [_ ->].
  rewrite leading_entries_dicts_app by done. split; [|done].
  rewrite decide_False; [done|].
  intros [_ [[] _]%Forall_cons]%Forall_app.
Qed.

Lemma update_tool_config_keeps_committed_prefix_witness :
  let r := request (update_tool_config "web-search" broken_configs) example_store in
  outcome r = Raise not_a_dict_error ∧
  store r = store (request (update_tool_config "web-search"
                              [config_dict (Some "region", Some "us")])
                     example_store) ∧
  store r ≠ example_store.
Proof.
  pose proof (update_tool_config_keeps_committed_prefix example_store
                "web-search" [config_dict (Some "region", Some "us")]
                [config_dict (Some "region", Some "ap")]) as Hkeep.
  simpl in Hkeep. destruct Hkeep as [Hout Hstore].
  - vm_compute. by eexists.
  - repeat constructor.
  - split_and!; [exact Hout|exact Hstore|]. vm_compute. discriminate.
Defined.

(** X3: whatever the store, the name and the body, [update_tool_config]
    answers either its fixed message or status 500; no other status, 404
    included, ever leaves it. *)
Theorem update_tool_config_message_or_500 db name configs :
  let r := request (update_tool_config name configs) db in
  outcome r = Return updated_message ∨
  ∃ e, outcome r = Raise (HTTPException 500 (str e)).
Proof.
  intros r. pose proof (update_store name configs db) as Hr.
  simpl in Hr. fold r in Hr.
  destruct (list_find _ (tool_kits db)) as [tool_kit|].
  - destruct Hr as [-> _]. case_decide; [by left|right; by eexists].
  - destruct Hr as [-> _]. right. by eexists.
Qed.

(** X4: [update_tool_config] is idempotent: the same request on the store
    the first one left gives the same store and the same answer, also when
    the request fails midway. *)
Theorem update_tool_config_idempotent db name configs :
  let r1 := request (update_tool_config name configs) db in
  let r2 := request (update_tool_config name configs) (store r1) in
  store r2 = store r1 ∧ outcome r2 = outcome r1.
Proof.
  intros r1 r2.
  pose proof (update_store name configs db) as H1.
  pose proof (update_store name configs (store r1)) as H2.
  simpl in H1, H2. fold r1 in H1, H2. fold r2 in H2.
  destruct (list_find _ (tool_kits db)) as [[i tk]|] eqn:Hfind.
  - destruct H1 as [Hout Hstore]. simpl in *.
    set (K := filter (updatable (ToolKit.id tk) db) (leading_entries configs))
      in *.
    assert (Forall (updatable (ToolKit.id tk) db) K) as HK
      by apply filter_satisfies.
    rewrite Hstore, tool_kits_reconcile, Hfind in H2. simpl in H2.
    rewrite (list_filter_iff
               (updatable (ToolKit.id tk) (reconcile (ToolKit.id tk) K db))
               (updatable (ToolKit.id tk) db)) in H2.
    2:{ intros e. apply updatable_same_pairs.
        by apply config_pairs_reconcile_updatable. }
    fold K in H2. destruct H2 as [-> ->].
    by rewrite Hstore, reconcile_idempotent, Hout.
  - destruct H1 as [_ Hstore]. unfold r2. by rewrite Hstore.
Qed.

(** X5: on entries whose keys are not None and all have a row for the
    toolkit, the update-only request and the full upsert leave the same
    store. *)
Theorem update_agrees_with_upsert_on_existing_keys db name i T K :
  list_find (λ k, ToolKit.name k = name) (tool_kits db) = Some (i, T) →
  Forall (updatable (ToolKit.id T) db) K →
  store (request (update_tool_config name (config_dict <$> K)) db) =
  store (request (create_or_update_tool_config name (tool_config_data <$> K)) db).
Proof.
  intros Hfind HK.
  pose proof (update_store name (config_dict <$> K) db) as Hu.
  pose proof (create_or_update_run name (tool_config_data <$> K) db) as Hc.
  simpl in Hu, Hc. rewrite Hfind in Hu, Hc.
  rewrite entries_tool_config_data in Hc. simpl in *.
  destruct Hu as [_ ->], Hc as [_ ->].
  by rewrite leading_entries_config_dict, filter_all.
Qed.

Lemma update_agrees_with_upsert_witness :
  store (request (update_tool_config "web-search"
                    (config_dict <$> [(Some "region", Some "us")]))
           example_store) =
  store (request (create_or_update_tool_config "web-search"
                    (tool_config_data <$> [(Some "region", Some "us")]))
           example_store).
Proof.
  apply (update_agrees_with_upsert_on_existing_keys example_store "web-search"
           0%nat web_search [(Some "region", Some "us")]).
  - vm_compute. reflexivity.
  - repeat constructor; [done|]. vm_compute. by eexists.
Defined.

(** X6: two full upserts in a row are one upsert of the two lists in a
    row: the store and the answer after bodies [K1] and then [K2] are
    those after the single body [K1 ++ K2]. *)
Theorem create_or_update_composes db name K1 K2 :
  let r1 := request (create_or_update_tool_config name (tool_config_data <$> K1)) db in
  let r2 := request (create_or_update_tool_config name (tool_config_data <$> K2))
              (store r1) in
  let r := request (create_or_update_tool_config name
                      (tool_config_data <$> (K1 ++ K2))) db in
  store r2 = store r ∧ outcome r2 = outcome r.
Proof.
  intros r1 r2 r.
  pose proof (create_or_update_run name (tool_config_data <$> K1) db) as H1.
  pose proof (create_or_update_run name (tool_config_data <$> K2) (store r1)) as H2.
  pose proof (create_or_update_run name (tool_config_data <$> (K1 ++ K2)) db) as H.
  simpl in H1, H2, H. fold r1 in H1, H2. fold r2 in H2. fold r in H.
  rewrite entries_tool_config_data in H1, H2, H.
  destruct (list_find _ (tool_kits db)) as [[i tk]|] eqn:Hfind; simpl in *.
  - destruct H1 as [_ Hs1], H as [-> ->].
    rewrite Hs1, tool_kits_reconcile, Hfind in H2. simpl in H2.
    destruct H2 as [-> ->]. split; [|done].
    unfold reconcile. by rewrite fold_left_app.
  - destruct H1 as [_ Hs1], H as [-> ->].
    rewrite Hs1, Hfind in H2. by destruct H2 as [-> ->].
Qed.

(** X7: whatever its input, the full upsert only overwrites values and
    appends rows: the toolkits are untouched, the rows there were keep
    their (id, tool_kit_id, key) and their order at the head of the table,
    and when it returns toolkit [T], every row of another toolkit is as it
    was. *)
Theorem create_or_update_only_appends db name objs :
  let r := request (create_or_update_tool_config name objs) db in
  tool_kits (store r) = tool_kits db ∧
  row_identity <$> tool_configs db
    `prefix_of` row_identity <$> tool_configs (store r) ∧
  (∀ T c, outcome r = Return T →
          ToolConfig.tool_kit_id c ≠ ToolKit.id T →
          c ∈ tool_configs (store r) ↔ c ∈ tool_configs db).
Proof.
  intros r. pose proof (create_or_update_run name objs db) as Hr.
  simpl in Hr. fold r in Hr.
  destruct (list_find _ (tool_kits db)) as [[i tk]|].
  - destruct (mapM entry_of objs) as [K|]; simpl in *.
    + destruct Hr as [-> ->]. split_and!.
      * apply tool_kits_reconcile.
      * apply row_identity_reconcile_prefix.
      * intros T c [= <-] Hc. apply elem_of_reconcile_ne. by intros [? _].
    + destruct Hr as [[e ->] ->]. by split_and!.
  - destruct Hr as [-> ->]. by split_and!.
Qed.

(** X8: the full upsert returns a toolkit exactly when a toolkit of that
    name exists and every element of the body has both attributes "key"
    and "value"; a missing toolkit is answered 404 whatever the body, that
    is before any element is read. *)
Theorem create_or_update_succeeds_iff db name objs :
  let r := request (create_or_update_tool_config name objs) db in
  ((∃ T, outcome r = Return T) ↔
   is_Some (list_find (λ k, ToolKit.name k = name) (tool_kits db)) ∧
   is_Some (mapM entry_of objs)) ∧
  (list_find (λ k, ToolKit.name k = name) (tool_kits db) = None →
   outcome r = Raise (HTTPException 404 (Literal "ToolKit not found")) ∧
   issued r = [SELECT_tool_kits_name name]).
Proof.
  intros r. pose proof (create_or_update_run name objs db) as Hr.
  simpl in Hr. fold r in Hr. split.
  - destruct (list_find _ (tool_kits db)) as [[i tk]|].
    + destruct (mapM entry_of objs) as [K|]; simpl in *.
      * destruct Hr as [-> _]. split; [by split; eexists|by eexists].
      * destruct Hr as [[e ->] _]. split; [by intros [? ?]|].
        by intros [_ [? ?]].
    + destruct Hr as [-> _]. split; [by intros [? ?]|]. by intros [[? ?] _].
  - intros Hfind. unfold r, request, create_or_update_tool_config,
      query_ToolKit_name_first.
    run. by rewrite Hfind.
Qed.

(** ** [get_all_tool_configs] *)

(** X9: [get_all_tool_configs] never changes the store; it answers 404
    exactly when no toolkit has the name, whoever asks, and 403 exactly
    when some toolkit has the name and the caller's organisation owns no
    toolkit of that name. *)
Theorem get_all_tool_configs_errors db name organisation :
  let r := request (get_all_tool_configs name organisation) db in
  store r = db ∧
  (outcome r = Raise (HTTPException 404 (Literal "ToolKit not found")) ↔
   list_find (λ k, ToolKit.name k = name) (tool_kits db) = None) ∧
  (outcome r = Raise (HTTPException 403 (Literal "Unauthorized")) ↔
   is_Some (list_find (λ k, ToolKit.name k = name) (tool_kits db)) ∧
   ¬ owns_named (Organisation.id organisation) name db).
Proof.
  intros r.
  destruct (get_all_tool_configs_run name organisation db) as [Hs Ho].
  fold r in Hs, Ho. split; [done|]. rewrite Ho.
  destruct (list_find _ (tool_kits db)) as [tk|].
  - case_decide as Hown.
    + split; (split; [done|]); [done|]. by intros [_ ?].
    + split; [by split|]. split; [|done]. intros _. split; [by eexists|done].
  - split; [by split|]. split; [done|]. by intros [[? ?] _].
Qed.

(** X10: [get_all_tool_configs] authorises by name: when the caller's
    organisation owns any toolkit of the name, the answer is the rows of
    the first toolkit of that name, in table order, whichever organisation
    that first toolkit belongs to. *)
Theorem get_all_tool_configs_authorises_by_name db name organisation i T :
  list_find (λ k, ToolKit.name k = name) (tool_kits db) = Some (i, T) →
  owns_named (Organisation.id organisation) name db →
  outcome (request (get_all_tool_configs name organisation) db) =
  Return (configs_of (ToolKit.id T) (tool_configs db)).
Proof.
  intros Hfind Hown.
  destruct (get_all_tool_configs_run name organisation db) as [_ ->].
  by rewrite Hfind, decide_True.
Qed.

Lemma get_all_tool_configs_other_organisation :
  ToolKit.organisation_id (ToolKit.mk 1 "web-search" 11) ≠ 10 ∧
  outcome (request (get_all_tool_configs "web-search" (Organisation.mk 10))
             shared_name_store) =
  Return [ToolConfig.mk 1 1 (Some "api_key") (Some "s3cret")].
Proof.
  split; [done|].
  apply (get_all_tool_configs_authorises_by_name shared_name_store "web-search"
           (Organisation.mk 10) 0%nat (ToolKit.mk 1 "web-search" 11)).
  - vm_compute. reflexivity.
  - unfold owns_named. simpl. apply Exists_cons_tl, Exists_cons_hd. done.
Defined.

(** X11: what the full upsert writes, [get_all_tool_configs] reads back:
    on a store with at most one config per (tool_kit_id, key), after the
    upsert of [K] into the toolkit the name resolves to, a caller whose
    organisation owns a toolkit of that name gets rows of that toolkit
    only, among them exactly one per key of [K], holding the value of the
    key's last occurrence. *)
Theorem create_or_update_then_get_all db name organisation i T K :
  list_find (λ k, ToolKit.name k = name) (tool_kits db) = Some (i, T) →
  unique_configs db →
  owns_named (Organisation.id organisation) name db →
  let r := request (create_or_update_tool_config name (tool_config_data <$> K)) db in
  ∃ l,
    outcome (request (get_all_tool_configs name organisation) (store r)) = Return l ∧
    (∀ c, c ∈ l → ToolConfig.tool_kit_id c = ToolKit.id T) ∧
    (∀ k, k ∈ K.*1 →
       ∃ c, filter (λ c, ToolConfig.key c = k) l = [c] ∧
            last_value K k = Some (ToolConfig.value c)).
Proof.
  intros Hfind Hdb Hown r.
  pose proof (create_or_update_run name (tool_config_data <$> K) db) as Hrun.
  simpl in Hrun. rewrite Hfind, entries_tool_config_data in Hrun.
  destruct Hrun as [_ Hstore]. fold r in Hstore. simpl in Hstore.
  destruct (get_all_tool_configs_run name organisation (store r)) as [_ Hget].
  rewrite Hstore, tool_kits_reconcile, Hfind in Hget.
  rewrite decide_True in Hget.
  2:{ eapply owns_named_same_toolkits; [|exact Hown].
      apply tool_kits_reconcile. }
  rewrite Hstore. eexists. split; [exact Hget|]. simpl. split.
  - by intros c [? _]%list_elem_of_filter.
  - intros k [v Hv]%last_value_is_Some. rewrite configs_of_for.
    destruct (unique_configs_for (ToolKit.id T) k v
                (tool_configs (reconcile (ToolKit.id T) K db)))
      as (c & Hc & <-).
    + by apply unique_reconcile.
    + by rewrite first_value_reconcile, Hv.
    + by exists c.
Qed.

Lemma create_or_update_then_get_all_witness :
  let r := request (create_or_update_tool_config "web-search"
                      (tool_config_data <$> example_entries)) example_store in
  ∃ l,
    outcome (request (get_all_tool_configs "web-search" (Organisation.mk 10))
               (store r)) = Return l ∧
    (∀ c, c ∈ l → ToolConfig.tool_kit_id c = ToolKit.id web_search) ∧
    (∀ k, k ∈ example_entries.*1 →
       ∃ c, filter (λ c, ToolConfig.key c = k) l = [c] ∧
            last_value example_entries k = Some (ToolConfig.value c)).
Proof.
  apply (create_or_update_then_get_all example_store "web-search"
           (Organisation.mk 10) 0%nat web_search example_entries).
  - vm_compute. reflexivity.
  - unfold unique_configs. simpl. apply NoDup_singleton.
  - unfold owns_named. simpl. by apply Exists_cons_hd.
Defined.

(** ** The other analytics handlers *)

Section analytics_further.
Context {R : Type}.
Implicit Types (helper : M R) (s : Session).


End analytics_further.


(** ** Further properties of the marketplace index aggregator *)

Section vector_db_index_extras.
Context {vstore : VectorStore}.

(** X14: every summary of either group carries the index's id under "id",
    its name under "name" and the result of the dimension check against
    the requested knowledge under "is_valid_dimension", and has no key
    besides these three and "is_valid_state". *)
Theorem summary_fields knowledge_id organisation group ds d :
  get_marketplace_valid_indices knowledge_id organisation !! group = Some ds →
  d ∈ ds →
  ∃ p, p ∈ enumerated organisation ∧
       d !! "id" = Some (PyInt (VectorIndexCollection.id p.2)) ∧
       d !! "name" = Some (PyStr (VectorIndexCollection.name p.2)) ∧
       d !! "is_valid_dimension" =
         Some (PyBool (check_valid_dimension (VectorIndexCollection.id p.2)
                         knowledge_id)) ∧
       dom d ⊆ summary_keys.
Proof.
  intros Hg Hd.
  destruct (group_members _ _ _ _ _ Hg Hd) as (p & Hp & ->).
  exists p. split; [done|]. unfold index_data, summary_keys.
  case_decide; split_and!;
    rewrite ?lookup_insert_ne, ?lookup_insert_eq by done; try done;
    rewrite !dom_insert_L, dom_empty_L; intros x;
    rewrite !elem_of_union, !elem_of_singleton, elem_of_empty; tauto.
Qed.

(** X15: both groups of the response are empty exactly when no vector
    database of the organisation has an index (in particular when the
    organisation has no vector database). *)
Theorem no_index_no_summary knowledge_id organisation :
  get_marketplace_valid_indices knowledge_id organisation =
    <["qdrant" := []]> (<["pinecone" := []]> ∅)
  ↔ ∀ v, v ∈ get_vector_db_organisation organisation →
         get_vector_index_organisation (Vectordb.id v) = [].
Proof.
  rewrite <- enumerated_nil. unfold get_marketplace_valid_indices.
  rewrite valid_indices_groups. simpl. unfold summaries. split.
  - intros Heq.
    pose proof (f_equal (.!! "qdrant") Heq) as Hq.
    pose proof (f_equal (.!! "pinecone") Heq) as Hp.
    rewrite !lookup_insert_eq in Hq.
    rewrite !(lookup_insert_ne _ "qdrant" "pinecone"), !lookup_insert_eq in Hp
      by done.
    injection Hq as Hq%fmap_nil_inv. injection Hp as Hp%fmap_nil_inv.
    apply Permutation_nil_r.
    rewrite <- (filter_app_complement is_pinecone (enumerated organisation)).
    by rewrite Hp, Hq.
  - by intros ->.
Qed.
End vector_db_index_extras.

Lemma summary_fields_witness :
  let d := index_data (vstore := example_vector_store) 5
             (VectorIndexCollection.mk 7 1 "docs") in
  ∃ p, p ∈ enumerated (vstore := example_vector_store) (Organisation.mk 10) ∧
       d !! "id" = Some (PyInt (VectorIndexCollection.id p.2)) ∧
       d !! "name" = Some (PyStr (VectorIndexCollection.name p.2)) ∧
       d !! "is_valid_dimension" =
         Some (PyBool (example_dimension (VectorIndexCollection.id p.2) 5)) ∧
       dom d ⊆ summary_keys.
Proof.
  apply (summary_fields (vstore := example_vector_store)
           5 (Organisation.mk 10) "pinecone"
           [index_data (vstore := example_vector_store) 5
              (VectorIndexCollection.mk 7 1 "docs")]).
  - vm_compute. reflexivity.
  - apply list_elem_of_singleton. reflexivity.
Defined.
